(** * port-sync: the forwarded-port synchronisation loop of [main.go]

    A shallow embedding of [main.go] (package [main]) and of the parts of
    Go's standard library that the program's control flow depends on
    ([strings.TrimSpace], [strings.Contains], [strconv.Atoi] and the [%d]
    verb of [fmt]), followed by the properties of the reconciliation
    cycle [syncPort], of [readPortFile] and of the session client.

    Conventions.
    - A Go [string] is a byte sequence: it is a Rocq [string], whose
      characters are the bytes; [byte] gives a byte's value.
    - Go's [int] is the 64-bit signed integer of the platforms the
      program is built for; it is a [Z], and the only place where
      arithmetic could leave the range ([strconv.Atoi]) writes the
      wrap-around out.
    - Go's [error] is [option string]: [None] is [nil], [Some msg] is an
      error whose [Error()] text is [msg].  Several results are a pair,
      as in Go. *)

From Stdlib Require Import ZArith List String Ascii Bool Lia.
From Stdlib Require Import DecimalString DecimalPos.
Import ListNotations.

Local Open Scope string_scope.
Local Open Scope Z_scope.

(** ** Bytes and slices of strings *)

Definition byte (c : ascii) : Z := Z.of_N (N_of_ascii c).

Definition char (b : Z) : ascii := ascii_of_N (Z.to_N b).

(** [len(s)] *)
Definition len (s : string) : nat := String.length s.

(** [s[i]]; the program never indexes out of range. *)
Definition at_ (s : string) (i : nat) : Z :=
  match String.get i s with
  | Some c => byte c
  | None => 0
  end.

(** [s[i:]] *)
Definition from (i : nat) (s : string) : string :=
  String.substring i (len s - i) s.

(** [s[:j]] *)
Definition upto (j : nat) (s : string) : string :=
  String.substring 0 j s.

(** [s[i:j]] *)
Definition slice (i j : nat) (s : string) : string :=
  String.substring i (j - i) s.

Definition error : Type := option string.

(** ** Package [unicode/utf8] *)

Module utf8.

Definition RuneError : Z := 65533.
Definition RuneSelf : Z := 128.
Definition UTFMax : nat := 4.

Definition locb : Z := 128.
Definition hicb : Z := 191.

(** The table [first]: for a leading byte, [None] for [xx] (an illegal
    leading byte), otherwise the size of the sequence and the range
    accepted for its second byte ([acceptRanges]).  ASCII bytes ([as])
    are taken before the table is consulted. *)
Definition first (b : Z) : option (nat * (Z * Z)) :=
  if b <? 194 then None
  else if b <=? 223 then Some (2%nat, (locb, hicb))
  else if b =? 224 then Some (3%nat, (160, hicb))
  else if b <=? 236 then Some (3%nat, (locb, hicb))
  else if b =? 237 then Some (3%nat, (locb, 159))
  else if b <=? 239 then Some (3%nat, (locb, hicb))
  else if b =? 240 then Some (4%nat, (144, hicb))
  else if b <=? 243 then Some (4%nat, (locb, hicb))
  else if b =? 244 then Some (4%nat, (locb, 143))
  else None.

Definition cont (b : Z) : bool := (locb <=? b) && (b <=? hicb).

(** [utf8.DecodeRuneInString]: the first rune of [s] and its width. *)
Definition DecodeRuneInString (s : string) : Z * nat :=
  let n := len s in
  if (n <? 1)%nat then (RuneError, 0%nat)
  else
    let s0 := at_ s 0 in
    if s0 <? RuneSelf then (s0, 1%nat)
    else
      match first s0 with
      | None => (RuneError, 1%nat)
      | Some (sz, (lo, hi)) =>
          if (n <? sz)%nat then (RuneError, 1%nat)
          else
            let s1 := at_ s 1 in
            if (s1 <? lo) || (hi <? s1) then (RuneError, 1%nat)
            else if (sz <=? 2)%nat then
              (Z.lor (Z.shiftl (Z.land s0 31) 6) (Z.land s1 63), 2%nat)
            else
              let s2 := at_ s 2 in
              if negb (cont s2) then (RuneError, 1%nat)
              else if (sz <=? 3)%nat then
                (Z.lor (Z.lor (Z.shiftl (Z.land s0 15) 12)
                              (Z.shiftl (Z.land s1 63) 6))
                       (Z.land s2 63), 3%nat)
              else
                let s3 := at_ s 3 in
                if negb (cont s3) then (RuneError, 1%nat)
                else
                  (Z.lor (Z.lor (Z.lor (Z.shiftl (Z.land s0 7) 18)
                                       (Z.shiftl (Z.land s1 63) 12))
                                (Z.shiftl (Z.land s2 63) 6))
                         (Z.land s3 63), 4%nat)
      end.

(** [utf8.RuneStart] *)
Definition RuneStart (b : Z) : bool := negb (Z.land b 192 =? 128).

(** The backwards search of [DecodeLastRuneInString] for the start of
    the last rune: from [start] down to [lim], at most [fuel] steps. *)
Fixpoint findStart (fuel : nat) (s : string) (start lim : Z) : Z :=
  match fuel with
  | O => start
  | S k =>
      if start <? lim then start
      else if RuneStart (at_ s (Z.to_nat start)) then start
      else findStart k s (start - 1) lim
  end.

(** [utf8.DecodeLastRuneInString]: the last rune of [s] and its width. *)
Definition DecodeLastRuneInString (s : string) : Z * nat :=
  let end_ := len s in
  if (end_ =? 0)%nat then (RuneError, 0%nat)
  else
    let r := at_ s (end_ - 1) in
    if r <? RuneSelf then (r, 1%nat)
    else
      let lim := Z.max 0 (Z.of_nat end_ - Z.of_nat UTFMax) in
      let start := findStart UTFMax s (Z.of_nat end_ - 2) lim in
      let start := Z.to_nat (Z.max 0 start) in
      let (r, size) := DecodeRuneInString (slice start end_ s) in
      if (start + size =? end_)%nat then (r, size)
      else (RuneError, 1%nat).

End utf8.

(** ** Package [unicode] *)

Module unicode.

Definition MaxLatin1 : Z := 255.

(** [unicode.IsSpace]: in Latin-1 the six ASCII spaces, U+0085 (NEL)
    and U+00A0 (NBSP); outside Latin-1 the code points of the
    [White_Space] table: U+1680, U+2000 to U+200A, U+2028, U+2029,
    U+202F, U+205F and U+3000. *)
Definition IsSpace (r : Z) : bool :=
  if r <=? MaxLatin1 then
    (r =? 9) || (r =? 10) || (r =? 11) || (r =? 12) || (r =? 13)
    || (r =? 32) || (r =? 133) || (r =? 160)
  else
    (r =? 5760) || ((8192 <=? r) && (r <=? 8202))
    || (r =? 8232) || (r =? 8233) || (r =? 8239) || (r =? 8287)
    || (r =? 12288).

End unicode.

(** ** Package [strings] *)

Module strings.

(** The table [asciiSpace]: tab (9), line feed (10), vertical tab (11),
    form feed (12), carriage return (13) and space (32). *)
Definition asciiSpace (c : Z) : bool :=
  (c =? 9) || (c =? 10) || (c =? 11) || (c =? 12) || (c =? 13)
  || (c =? 32).

(** [indexFunc(s, f, truth)]: the index of the first rune of [s], from
    byte [i] on, on which [f] gives [truth], or -1.  The [range] loop
    over a string advances by the width of each rune (one byte at an
    invalid sequence), so [len s] steps are enough. *)
Fixpoint indexFuncFrom (fuel : nat) (s : string) (i : nat)
    (f : Z -> bool) (truth : bool) : Z :=
  match fuel with
  | O => -1
  | S k =>
      if (len s <=? i)%nat then -1
      else
        let (r, size) := utf8.DecodeRuneInString (from i s) in
        if Bool.eqb (f r) truth then Z.of_nat i
        else indexFuncFrom k s (i + size) f truth
  end.

Definition indexFunc (s : string) (f : Z -> bool) (truth : bool) : Z :=
  indexFuncFrom (len s) s 0 f truth.

(** [lastIndexFunc(s, f, truth)]: the same from the end of [s]. *)
Fixpoint lastIndexFuncFrom (fuel : nat) (s : string) (i : nat)
    (f : Z -> bool) (truth : bool) : Z :=
  match fuel with
  | O => -1
  | S k =>
      if (i <=? 0)%nat then -1
      else
        let (r, size) := utf8.DecodeLastRuneInString (upto i s) in
        let i := (i - size)%nat in
        if Bool.eqb (f r) truth then Z.of_nat i
        else lastIndexFuncFrom k s i f truth
  end.

Definition lastIndexFunc (s : string) (f : Z -> bool) (truth : bool) : Z :=
  lastIndexFuncFrom (len s) s (len s) f truth.

(** [strings.TrimLeftFunc] *)
Definition TrimLeftFunc (s : string) (f : Z -> bool) : string :=
  let i := indexFunc s f false in
  if i =? -1 then "" else from (Z.to_nat i) s.

(** [strings.TrimRightFunc] *)
Definition TrimRightFunc (s : string) (f : Z -> bool) : string :=
  let i := lastIndexFunc s f false in
  let i :=
    if (0 <=? i) && (utf8.RuneSelf <=? at_ s (Z.to_nat i)) then
      let (_, wid) := utf8.DecodeRuneInString (from (Z.to_nat i) s) in
      i + Z.of_nat wid
    else i + 1 in
  upto (Z.to_nat i) s.

(** [strings.TrimFunc] *)
Definition TrimFunc (s : string) (f : Z -> bool) : string :=
  TrimRightFunc (TrimLeftFunc s f) f.

(** The second loop of [TrimSpace], over [t = s[start:]]: [stop] moves
    down from the end of [t] over ASCII spaces. *)
Fixpoint trimSpaceStop (t : string) (stop : nat) : string :=
  match stop with
  | O => upto 0 t
  | S k =>
      let c := at_ t k in
      if utf8.RuneSelf <=? c then
        TrimRightFunc (upto stop t) unicode.IsSpace
      else if asciiSpace c then trimSpaceStop t k
      else upto stop t
  end.

(** [strings.TrimSpace]: [s] without its leading and trailing white
    space, as defined by Unicode.  The first loop moves [start] over
    ASCII spaces; a byte outside ASCII hands the rest to the
    rune-by-rune functions. *)
Fixpoint TrimSpace (s : string) : string :=
  match s with
  | EmptyString => ""
  | String c r =>
      if utf8.RuneSelf <=? byte c then TrimFunc s unicode.IsSpace
      else if asciiSpace (byte c) then TrimSpace r
      else trimSpaceStop s (len s)
  end.

(** [strings.HasPrefix(s, prefix)] *)
Fixpoint HasPrefix (s prefix : string) : bool :=
  match prefix, s with
  | EmptyString, _ => true
  | String p prefix', String c s' =>
      Ascii.eqb p c && HasPrefix s' prefix'
  | String _ _, EmptyString => false
  end.

(** [strings.Contains(s, substr)]: [substr] occurs somewhere in [s]. *)
Fixpoint Contains (s substr : string) : bool :=
  HasPrefix s substr ||
  match s with
  | EmptyString => false
  | String _ s' => Contains s' substr
  end.

End strings.

(** ** Package [strconv] *)

Module strconv.

(** The two errors of the package: [ErrSyntax] and [ErrRange]. *)
Inductive NumError : Type := ErrSyntax | ErrRange.

Definition intSize : Z := 64.
Definition maxUint64 : Z := 2 ^ 64 - 1.

(** Arithmetic of [uint64], of [int] and of [byte] wraps around. *)
Definition wrapUint64 (z : Z) : Z := z mod 2 ^ 64.
Definition wrapInt (z : Z) : Z := (z + 2 ^ 63) mod 2 ^ 64 - 2 ^ 63.
Definition wrapByte (z : Z) : Z := z mod 256.

(** [lower(c)]: [c | ('x' - 'X')] *)
Definition lower (c : Z) : Z := Z.lor c 32.

Definition base : Z := 10.

(** [cutoff] of [ParseUint]: the smallest number such that
    [cutoff * base > maxUint64]. *)
Definition cutoff : Z := maxUint64 / 10 + 1.

(** [maxVal] of [ParseUint] for [bitSize = IntSize]. *)
Definition maxVal : Z := 2 ^ intSize - 1.

(** The loop of [ParseUint(s, 10, 0)] over the bytes of [s], [n] being
    the number read so far.  The bytes 48 to 57 are the digits ['0'] to
    ['9'], 97 to 122 the letters ['a'] to ['z']; a letter is a digit of
    a base above ten, so it fails the test against [base]. *)
Fixpoint parseUintLoop (n : Z) (s : string) : Z * option NumError :=
  match s with
  | EmptyString => (n, None)
  | String c r =>
      let c := byte c in
      match
        (if (48 <=? c) && (c <=? 57) then Some (wrapByte (c - 48))
         else if (97 <=? lower c) && (lower c <=? 122)
              then Some (wrapByte (lower c - 97 + 10))
         else None)
      with
      | None => (0, Some ErrSyntax)
      | Some d =>
          if base <=? d then (0, Some ErrSyntax)
          else if cutoff <=? n then (maxVal, Some ErrRange)
          else
            let n := wrapUint64 (n * base) in
            let n1 := wrapUint64 (n + d) in
            if (n1 <? n) || (maxVal <? n1) then (maxVal, Some ErrRange)
            else parseUintLoop n1 r
      end
  end.

(** [strconv.ParseUint(s, 10, 0)] *)
Definition ParseUint (s : string) : Z * option NumError :=
  match s with
  | EmptyString => (0, Some ErrSyntax)
  | _ => parseUintLoop 0 s
  end.

(** [strconv.ParseInt(s, 10, 0)]; the byte 43 is ['+'], 45 is ['-']. *)
Definition ParseInt (s : string) : Z * option NumError :=
  match s with
  | EmptyString => (0, Some ErrSyntax)
  | String c r =>
      let neg := byte c =? 45 in
      let s' := if (byte c =? 43) || (byte c =? 45) then r else s in
      let (un, err) := ParseUint s' in
      match err with
      | Some ErrSyntax => (0, err)
      | _ =>
          let cutoff := 2 ^ (intSize - 1) in
          if negb neg && (cutoff <=? un) then (cutoff - 1, Some ErrRange)
          else if neg && (cutoff <? un) then (- cutoff, Some ErrRange)
          else
            let n := wrapInt un in
            (if neg then wrapInt (- n) else n, None)
      end
  end.

(** The loop of the fast path of [Atoi]: [ch -= '0'] on a byte, then
    [n = n*10 + int(ch)]. *)
Fixpoint atoiLoop (n : Z) (s : string) : Z * option NumError :=
  match s with
  | EmptyString => (n, None)
  | String ch r =>
      let ch := wrapByte (byte ch - 48) in
      if 9 <? ch then (0, Some ErrSyntax)
      else atoiLoop (wrapInt (n * 10 + ch)) r
  end.

(** [strconv.Atoi]: strings of fewer than 19 bytes take the fast path,
    the others go through [ParseInt]. *)
Definition Atoi (s : string) : Z * option NumError :=
  let sLen := len s in
  if ((0 <? sLen) && (sLen <? 19))%nat then
    let s0 := s in
    match
      (if (at_ s 0 =? 45) || (at_ s 0 =? 43) then
         let s := from 1 s in
         if (len s <? 1)%nat then None else Some s
       else Some s)
    with
    | None => (0, Some ErrSyntax)
    | Some s =>
        let (n, err) := atoiLoop 0 s in
        match err with
        | Some _ => (0, err)
        | None => (if at_ s0 0 =? 45 then wrapInt (- n) else n, None)
        end
    end
  else
    let (i64, err) := ParseInt s in
    (i64, err).

End strconv.

(** ** Package [fmt] *)

Module fmt.

(** The verb [%d] on an [int]: the decimal digits, after a minus sign
    for a negative number. *)
Definition d (z : Z) : string := NilEmpty.string_of_int (Z.to_int z).

End fmt.

(** ** The world of the program

    The program talks to a file system and to the qBittorrent Web API.
    - [FS] is [os.ReadFile] at one moment: the bytes of a file, or the
      text of the error.  The file is written by another process, so
      every cycle is given its own [FS].
    - A [Request] is what the program hands to [http.Client]; the result
      is a response (status code and body) or the error of the transport
      (connection refused, timeout, ...).
    - [Remote] is the service together with the cookie jar of the
      [http.Client]: it answers a request knowing every request sent
      before.  A session expiring is the service answering 403. *)

Definition FS : Type := string -> string * error.

Inductive Request : Type :=
  | Get (url : string)
  | PostForm (url : string) (data : list (string * string)).

Inductive HttpResult : Type :=
  | TransportError (msg : string)
  | Response (StatusCode : Z) (Body : string).

Definition Remote : Type := list Request -> Request -> HttpResult.

Definition StatusOK : Z := 200.
Definition StatusForbidden : Z := 403.

(** What [json.NewDecoder(resp.Body).Decode(&prefs)] followed by
    [prefs["listen_port"].(float64)] and [int(port)] makes of a body:
    an error of the decoder, a preferences object without a numeric
    [listen_port], or the port. *)
Inductive Prefs : Type :=
  | DecodeError (msg : string)
  | Decoded (listen_port : option Z).

Definition Decoder : Type := string -> Prefs.

(** [type QBittorrentClient struct]; the cookie jar of [httpClient] is
    part of [Remote], and [sid] is never used. *)
Record QBittorrentClient : Type := {
  baseURL : string;
  username : string;
  password : string
}.

(** The state the program changes: the variable [lastPort] of [main]
    (the Last-Known Port, which [syncPort] receives by pointer), the
    requests sent so far, oldest first, and the lines logged. *)
Record World : Type := {
  lastPort : Z;
  sent : list Request;
  logged : list string
}.

Definition addRequest (rq : Request) (w : World) : World :=
  {| lastPort := lastPort w; sent := sent w ++ [rq]; logged := logged w |}.

Definition addLog (line : string) (w : World) : World :=
  {| lastPort := lastPort w; sent := sent w; logged := logged w ++ [line] |}.

Definition storeLastPort (p : Z) (w : World) : World :=
  {| lastPort := p; sent := sent w; logged := logged w |}.

(** *** The monad of the program

    A function of the program is a state transformer over [World].
    Inside a function body, [Body R A] is a computation that has either
    executed [return v] ([inl v]) or goes on with an [A] ([inr a]);
    [body] closes the function. *)

Definition M (A : Type) : Type := World -> A * World.

Definition Body (R A : Type) : Type := World -> (R + A) * World.

Definition pure {R A : Type} (a : A) : Body R A := fun w => (inr a, w).

Definition return_ {R A : Type} (v : R) : Body R A := fun w => (inl v, w).

Definition andThen {R A B : Type} (m : Body R A) (k : A -> Body R B)
    : Body R B :=
  fun w =>
    match m w with
    | (inl v, w') => (inl v, w')
    | (inr a, w') => k a w'
    end.

Definition call {R A : Type} (m : M A) : Body R A :=
  fun w => let (a, w') := m w in (inr a, w').

Definition body {R : Type} (m : Body R R) : M R :=
  fun w =>
    match m w with
    | (inl v, w') => (v, w')
    | (inr v, w') => (v, w')
    end.

Notation "x <- m ;; k" := (andThen m (fun x => k))
  (at level 61, m at next level, right associativity).
Notation "m ;; k" := (andThen m (fun _ => k))
  (at level 61, right associativity).

Definition skip {R : Type} : Body R unit := pure tt.

(** [log.Printf] and [log.Println]: the message, without the prefix of
    the logger. *)
Definition log_Printf {R : Type} (line : string) : Body R unit :=
  fun w => (inr tt, addLog line w).

Definition log_Println {R : Type} (line : string) : Body R unit :=
  log_Printf line.

(** [*lastPort] and [*lastPort = p] *)
Definition loadLastPort {R : Type} : Body R Z :=
  fun w => (inr (lastPort w), w).

Definition assignLastPort {R : Type} (p : Z) : Body R unit :=
  fun w => (inr tt, storeLastPort p w).

Definition dquote : string := String (char 34) "".

(** The first bytes of the message that [syncPort] logs after a
    successful update, as they are in [main.go]. *)
Definition updatedMark : string :=
  String (char 195) (String (char 162) (String (char 197) (String (char 147)
  (String (char 226) (String (char 128) (String (char 156) "")))))).

(** The return statement through which a call of [syncPort] left.  The
    Go function returns nothing; the embedding returns this label, which
    has no influence on what the function does. *)
Inductive Exit : Type :=
  | ReadFailed        (* readPortFile gave an error *)
  | Unchanged         (* filePort == *lastPort *)
  | GetReauthFailed   (* Login failed after an expired GetListeningPort *)
  | GetRetryFailed    (* GetListeningPort failed again after Login *)
  | GetFailed         (* GetListeningPort failed otherwise *)
  | SetReauthFailed   (* Login failed after an expired SetListeningPort *)
  | SetRetryFailed    (* SetListeningPort failed again after Login *)
  | SetFailed         (* SetListeningPort failed otherwise *)
  | Completed.        (* the end of the function, after *lastPort = filePort *)

(** ** The program *)

(** [func readPortFile(filename string) (int, error)] *)
Definition readPortFile (fs : FS) (filename : string) : Z * error :=
  let (data, err) := fs filename in
  match err with
  | Some err => (0, Some ("failed to read port file: " ++ err))
  | None =>
      let portStr := strings.TrimSpace data in
      let (port, err) := strconv.Atoi portStr in
      match err with
      | Some _ => (0, Some ("invalid port number: " ++ portStr))
      | None =>
          if (port <? 1) || (65535 <? port)
          then (0, Some ("port number out of range: " ++ fmt.d port))
          else (port, None)
      end
  end.

Section Program.

(** The service behind [httpClient], and the JSON decoder. *)
Variable remote : Remote.
Variable decodePrefs : Decoder.

(** [c.httpClient.Get(url)] and [c.httpClient.PostForm(url, data)] *)
Definition httpClient_do {R : Type} (rq : Request) : Body R HttpResult :=
  fun w => (inr (remote (sent w) rq), addRequest rq w).

Definition httpClient_Get {R : Type} (url : string) : Body R HttpResult :=
  httpClient_do (Get url).

Definition httpClient_PostForm {R : Type} (url : string)
    (data : list (string * string)) : Body R HttpResult :=
  httpClient_do (PostForm url data).

(** [func (c *QBittorrentClient) Login() error] *)
Definition Login (c : QBittorrentClient) : M error :=
  body (
    let loginURL := baseURL c ++ "/api/v2/auth/login" in
    let data := [("username", username c); ("password", password c)] in
    resp <- httpClient_PostForm loginURL data ;;
    match resp with
    | TransportError err =>
        return_ (Some ("login request failed: " ++ err))
    | Response StatusCode body_ =>
        let bodyStr := strings.TrimSpace body_ in
        (if negb (StatusCode =? StatusOK) || negb (bodyStr =? "Ok.")%string
         then return_ (Some ("login failed: status=" ++ fmt.d StatusCode
                               ++ ", body=" ++ bodyStr))
         else skip) ;;
        log_Println "Successfully authenticated with qBittorrent" ;;
        return_ None
    end).

(** [func (c *QBittorrentClient) GetListeningPort() (int, error)] *)
Definition GetListeningPort (c : QBittorrentClient) : M (Z * error) :=
  body (
    let prefsURL := baseURL c ++ "/api/v2/app/preferences" in
    resp <- httpClient_Get prefsURL ;;
    match resp with
    | TransportError err =>
        return_ (0, Some ("failed to get preferences: " ++ err))
    | Response StatusCode body_ =>
        (if StatusCode =? StatusForbidden
         then return_ (0, Some "authentication expired")
         else skip) ;;
        (if negb (StatusCode =? StatusOK)
         then return_ (0, Some ("unexpected status code: "
                                  ++ fmt.d StatusCode))
         else skip) ;;
        match decodePrefs body_ with
        | DecodeError err =>
            return_ (0, Some ("failed to decode preferences: " ++ err))
        | Decoded None =>
            return_ (0, Some "listen_port not found in preferences")
        | Decoded (Some port) =>
            return_ (port, None)
        end
    end).

(** [json.Marshal] of the map with the single key [listen_port]; it
    cannot fail on this value. *)
Definition marshalPrefs (port : Z) : string :=
  "{" ++ dquote ++ "listen_port" ++ dquote ++ ":" ++ fmt.d port ++ "}".

(** [func (c *QBittorrentClient) SetListeningPort(port int) error] *)
Definition SetListeningPort (c : QBittorrentClient) (port : Z) : M error :=
  body (
    let setPrefsURL := baseURL c ++ "/api/v2/app/setPreferences" in
    let prefsJSON := marshalPrefs port in
    let data := [("json", prefsJSON)] in
    resp <- httpClient_PostForm setPrefsURL data ;;
    match resp with
    | TransportError err =>
        return_ (Some ("failed to set preferences: " ++ err))
    | Response StatusCode body_ =>
        (if StatusCode =? StatusForbidden
         then return_ (Some "authentication expired")
         else skip) ;;
        (if negb (StatusCode =? StatusOK)
         then return_ (Some ("unexpected status code: " ++ fmt.d StatusCode
                               ++ ", body: " ++ body_))
         else skip) ;;
        return_ None
    end).


(** [func syncPort(client *QBittorrentClient, portFile string,
    lastPort *int)], run on the file system [fs] of its moment. *)
Definition syncPort (fs : FS) (client : QBittorrentClient)
    (portFile : string) : M Exit :=
  body (
    (* Read port from file *)
    let (filePort, err) := readPortFile fs portFile in
    match err with
    | Some err =>
        log_Printf ("Error reading port file: " ++ err) ;;
        return_ ReadFailed
    | None => skip
    end ;;
    (* Check if port has changed *)
    last <- loadLastPort ;;
    (if filePort =? last
     then log_Printf ("Port unchanged: " ++ fmt.d filePort) ;;
          return_ Unchanged
     else skip) ;;
    log_Printf ("Port changed from " ++ fmt.d last ++ " to "
                  ++ fmt.d filePort ++ ", updating qBittorrent...") ;;
    (* Get current port from qBittorrent *)
    got <- call (GetListeningPort client) ;;
    let (currentPort, err) := got in
    currentPort <-
      match err with
      | Some err =>
          if strings.Contains err "authentication expired" then
            log_Println "Session expired, re-authenticating..." ;;
            err <- call (Login client) ;;
            match err with
            | Some err =>
                log_Printf ("Re-authentication failed: " ++ err) ;;
                return_ GetReauthFailed
            | None => skip
            end ;;
            (* Retry getting current port *)
            got <- call (GetListeningPort client) ;;
            let (currentPort, err) := got in
            match err with
            | Some err =>
                log_Printf ("Failed to get current port after re-auth: "
                              ++ err) ;;
                return_ GetRetryFailed
            | None => skip
            end ;;
            pure currentPort
          else
            log_Printf ("Failed to get current port: " ++ err) ;;
            return_ GetFailed
      | None => pure currentPort
      end ;;
    log_Printf ("qBittorrent current port: " ++ fmt.d currentPort) ;;
    (* Update if different *)
    (if negb (currentPort =? filePort) then
       err <- call (SetListeningPort client filePort) ;;
       match err with
       | Some err =>
           if strings.Contains err "authentication expired" then
             log_Println "Session expired during set, re-authenticating..." ;;
             err <- call (Login client) ;;
             match err with
             | Some err =>
                 log_Printf ("Re-authentication failed: " ++ err) ;;
                 return_ SetReauthFailed
             | None => skip
             end ;;
             (* Retry setting port *)
             err <- call (SetListeningPort client filePort) ;;
             match err with
             | Some err =>
                 log_Printf ("Failed to set port after re-auth: " ++ err) ;;
                 return_ SetRetryFailed
             | None => skip
             end
           else
             log_Printf ("Failed to set listening port: " ++ err) ;;
             return_ SetFailed
       | None => skip
       end ;;
       log_Printf (updatedMark
                     ++ " Successfully updated qBittorrent listening port to "
                     ++ fmt.d filePort)
     else
       log_Printf ("qBittorrent already configured with correct port: "
                     ++ fmt.d filePort)) ;;
    assignLastPort filePort ;;
    return_ Completed).

(** The loop of [main]: one cycle per tick, each on the file system of
    its moment. *)
Fixpoint syncLoop (client : QBittorrentClient) (portFile : string)
    (ticks : list FS) : M unit :=
  match ticks with
  | [] => fun w => (tt, w)
  | fs :: ticks' =>
      fun w =>
        let (_, w') := syncPort fs client portFile w in
        syncLoop client portFile ticks' w'
  end.

(** [main] from [var lastPort int] on: the variable starts at zero,
    one cycle runs immediately and one more at every tick. *)
Definition mainLoop (client : QBittorrentClient) (portFile : string)
    (now : FS) (ticks : list FS) : M unit :=
  fun w => syncLoop client portFile (now :: ticks) (storeLastPort 0 w).

End Program.

(** The HTTP requests of the three methods of the client. *)
Definition loginRequest (c : QBittorrentClient) : Request :=
  PostForm (baseURL c ++ "/api/v2/auth/login")
           [("username", username c); ("password", password c)].

Definition getRequest (c : QBittorrentClient) : Request :=
  Get (baseURL c ++ "/api/v2/app/preferences").

Definition setRequest (c : QBittorrentClient) (port : Z) : Request :=
  PostForm (baseURL c ++ "/api/v2/app/setPreferences")
           [("json", marshalPrefs port)].

(** ** Configuration and startup *)

(** [os.Getenv]: the value of a variable, empty when it is not set. *)
Definition Env : Type := string -> string.

(** [os.Stat] at one moment: [nil] when the file exists. *)
Definition Stat : Type := string -> error.

(** [time.Duration] is an [int64] of nanoseconds. *)
Module time.

Definition Duration : Type := Z.
Definition Second : Duration := 1000000000.

End time.

(** [type Config struct] *)
Record Config : Type := {
  QBittorrentURL : string;
  Username : string;
  Password : string;
  PortFile : string;
  CheckInterval : time.Duration
}.

(** [func getEnv(key, defaultValue string) string] *)
Definition getEnv (env : Env) (key defaultValue : string) : string :=
  let value := env key in
  if negb (value =? "")%string then value else defaultValue.

(** [func getEnvInt(key string, defaultValue int) int] *)
Definition getEnvInt (env : Env) (key : string) (defaultValue : Z) : Z :=
  let value := env key in
  if negb (value =? "")%string then
    let (intVal, err) := strconv.Atoi value in
    match err with
    | None => intVal
    | Some _ => defaultValue
    end
  else defaultValue.

(** [func loadConfig()], which returns a [*Config] and an [error]; the
    product
    [time.Duration(checkInterval) * time.Second] is one of [int64]. *)
Definition loadConfig (env : Env) : option Config * error :=
  let qbURL := getEnv env "QBITTORRENT_URL" "http://localhost:30024" in
  let username := getEnv env "QBITTORRENT_USERNAME" "admin" in
  let password := env "QBITTORRENT_PASSWORD" in
  if (password =? "")%string then
    (None, Some "QBITTORRENT_PASSWORD environment variable is required")
  else
    let portFile := getEnv env "PORT_FILE" "/tmp/gluetun/forwarded_port" in
    let checkInterval := getEnvInt env "CHECK_INTERVAL" 30 in
    (Some {| QBittorrentURL := qbURL;
             Username := username;
             Password := password;
             PortFile := portFile;
             CheckInterval := strconv.wrapInt (checkInterval * time.Second) |},
     None).

(** [func NewQBittorrentClient(baseURL, username, password string)],
    which returns a [*QBittorrentClient] and an [error]; [jar] is the
    error of [cookiejar.New(nil)]. *)
Definition NewQBittorrentClient (jar : error)
    (baseURL username password : string)
    : option QBittorrentClient * error :=
  match jar with
  | Some err => (None, Some ("failed to create cookie jar: " ++ err))
  | None =>
      (Some {| baseURL := baseURL;
               username := username;
               password := password |},
       None)
  end.

(** How a run of [main] stands when what is known of its surroundings
    ends: the process has left through [log.Fatalf] (exit status 1), it
    has panicked, it is in the loop that waits for the port file, or it
    is in the loop over the ticker. *)
Inductive Outcome : Type :=
  | Fatal
  | Panicked
  | Waiting
  | Running.

(** [log.Fatalf]: the message is logged and the process exits. *)
Definition log_Fatalf {A : Type} (line : string) : Body Outcome A :=
  log_Printf line ;; return_ Fatal.

(** The loop of [main] that waits for the port file, on the successive
    results of [os.Stat], five seconds apart: the number of times it
    slept before the file was there, or [None] when it never was. *)
Fixpoint pollPortFile (portFile : string) (stats : list Stat) : option nat :=
  match stats with
  | [] => None
  | stat :: later =>
      match stat portFile with
      | None => Some O
      | Some _ => option_map S (pollPortFile portFile later)
      end
  end.

Section Startup.

Variable remote : Remote.
Variable decodePrefs : Decoder.

(** The verb [%v] on a [time.Duration]. *)
Variable durationString : time.Duration -> string.

(** [func main()], given the environment, the error of
    [cookiejar.New], the results of [os.Stat] while it waits, the file
    system at the first cycle and at every tick.  [time.NewTicker]
    panics on an interval that is not positive; a [nil] pointer is
    dereferenced with a panic. *)
Definition main (env : Env) (jar : error) (stats : list Stat) (now : FS)
    (ticks : list FS) : M Outcome :=
  body (
    log_Println "qBittorrent Port Sync starting..." ;;
    let (config, err) := loadConfig env in
    match err with
    | Some err => log_Fatalf ("Failed to load configuration: " ++ err)
    | None => skip
    end ;;
    log_Printf "Configuration loaded:" ;;
    match config with
    | None => return_ Panicked
    | Some config =>
        log_Printf ("  qBittorrent URL: " ++ QBittorrentURL config) ;;
        log_Printf ("  Username: " ++ Username config) ;;
        log_Printf ("  Port file: " ++ PortFile config) ;;
        log_Printf ("  Check interval: "
                      ++ durationString (CheckInterval config)) ;;
        let (client, err) :=
          NewQBittorrentClient jar (QBittorrentURL config) (Username config)
                               (Password config) in
        match err with
        | Some err =>
            log_Fatalf ("Failed to create qBittorrent client: " ++ err)
        | None => skip
        end ;;
        match client with
        | None => return_ Panicked
        | Some client =>
            (* Initial login *)
            err <- call (Login remote client) ;;
            match err with
            | Some err => log_Fatalf ("Initial login failed: " ++ err)
            | None => skip
            end ;;
            (* Wait for port file to exist *)
            log_Printf ("Waiting for port file: " ++ PortFile config) ;;
            match pollPortFile (PortFile config) stats with
            | None => return_ Waiting
            | Some _ => skip
            end ;;
            log_Println "Port file found, starting sync loop..." ;;
            assignLastPort 0 ;;
            (if CheckInterval config <=? 0 then return_ Panicked else skip) ;;
            (* Do initial sync immediately, then one at every tick *)
            call (syncLoop remote decodePrefs client (PortFile config)
                           (now :: ticks)) ;;
            return_ Running
        end
    end).

End Startup.

(** ** Observing the client

    The world in which only the requests [h] have been sent, and what
    each method of the client returns when it is called after [h]. *)

Definition after (h : list Request) : World :=
  {| lastPort := 0; sent := h; logged := [] |}.

Section Results.

Variable remote : Remote.
Variable decodePrefs : Decoder.

Definition loginResult (c : QBittorrentClient) (h : list Request) : error :=
  fst (Login remote c (after h)).

Definition getResult (c : QBittorrentClient) (h : list Request)
    : Z * error :=
  fst (GetListeningPort remote decodePrefs c (after h)).

Definition setResult (c : QBittorrentClient) (port : Z)
    (h : list Request) : error :=
  fst (SetListeningPort remote c port (after h)).

End Results.

Definition Request_eq_dec (a b : Request) : {a = b} + {a <> b}.
Proof.
  decide equality.
  - apply string_dec.
  - apply (list_eq_dec (fun x y : string * string =>
             ltac:(decide equality; apply string_dec))).
  - apply string_dec.
Defined.

(** How many times a cycle's requests contain the login request. *)
Definition logins (c : QBittorrentClient) (tr : list Request) : nat :=
  count_occ Request_eq_dec tr (loginRequest c).

(** The words under which [syncPort] logs the error that made it return
    early; the two other return statements log no error. *)
Definition failureWords (exit : Exit) : string :=
  match exit with
  | ReadFailed => "Error reading port file: "
  | GetReauthFailed => "Re-authentication failed: "
  | GetRetryFailed => "Failed to get current port after re-auth: "
  | GetFailed => "Failed to get current port: "
  | SetReauthFailed => "Re-authentication failed: "
  | SetRetryFailed => "Failed to set port after re-auth: "
  | SetFailed => "Failed to set listening port: "
  | Unchanged => ""
  | Completed => ""
  end.

(** What [main] derives from the environment: the client, the port
    file and the interval of the ticker. *)
Definition configuredClient (env : Env) : QBittorrentClient :=
  {| baseURL := getEnv env "QBITTORRENT_URL" "http://localhost:30024";
     username := getEnv env "QBITTORRENT_USERNAME" "admin";
     password := env "QBITTORRENT_PASSWORD" |}.

Definition configuredPortFile (env : Env) : string :=
  getEnv env "PORT_FILE" "/tmp/gluetun/forwarded_port".

Definition configuredInterval (env : Env) : time.Duration :=
  strconv.wrapInt (getEnvInt env "CHECK_INTERVAL" 30 * time.Second).

(** The world after [main] has logged its configuration. *)
Definition configLogged (durationString : time.Duration -> string)
    (env : Env) (w : World) : World :=
  addLog ("  Check interval: " ++ durationString (configuredInterval env))
    (addLog ("  Port file: " ++ configuredPortFile env)
       (addLog ("  Username: " ++ username (configuredClient env))
          (addLog ("  qBittorrent URL: " ++ baseURL (configuredClient env))
             (addLog "Configuration loaded:"
                (addLog "qBittorrent Port Sync starting..." w))))).

(** ** The runs of a cycle

    The paths through [syncPort], as a relation between the state at
    the start of the cycle and what the cycle leaves behind: the return
    statement taken, the new value of [lastPort] and the requests sent,
    in order.  [syncPort_run] below shows that every call of [syncPort]
    follows one of them. *)

Section Runs.

Variable remote : Remote.
Variable decodePrefs : Decoder.
Variable c : QBittorrentClient.

(** From the first [GetListeningPort] to the current port of the
    service ([inr]) or to a return statement ([inl]), after the
    requests [h]. *)
Inductive GetSite (h : list Request) : list Request -> Exit + Z -> Prop :=
  | Get_ok port :
      getResult remote decodePrefs c h = (port, None) ->
      GetSite h [getRequest c] (inr port)
  | Get_failed x err :
      getResult remote decodePrefs c h = (x, Some err) ->
      strings.Contains err "authentication expired" = false ->
      GetSite h [getRequest c] (inl GetFailed)
  | Get_reauth_failed x err err' :
      getResult remote decodePrefs c h = (x, Some err) ->
      strings.Contains err "authentication expired" = true ->
      loginResult remote c (h ++ [getRequest c]) = Some err' ->
      GetSite h [getRequest c; loginRequest c] (inl GetReauthFailed)
  | Get_retry_failed x err y err' :
      getResult remote decodePrefs c h = (x, Some err) ->
      strings.Contains err "authentication expired" = true ->
      loginResult remote c (h ++ [getRequest c]) = None ->
      getResult remote decodePrefs c
        (h ++ [getRequest c; loginRequest c]) = (y, Some err') ->
      GetSite h [getRequest c; loginRequest c; getRequest c]
              (inl GetRetryFailed)
  | Get_retry_ok x err port :
      getResult remote decodePrefs c h = (x, Some err) ->
      strings.Contains err "authentication expired" = true ->
      loginResult remote c (h ++ [getRequest c]) = None ->
      getResult remote decodePrefs c
        (h ++ [getRequest c; loginRequest c]) = (port, None) ->
      GetSite h [getRequest c; loginRequest c; getRequest c] (inr port).

(** From the first [SetListeningPort(port)] to its success ([None]) or
    to a return statement, after the requests [h]. *)
Inductive SetSite (port : Z) (h : list Request)
    : list Request -> option Exit -> Prop :=
  | Set_ok :
      setResult remote c port h = None ->
      SetSite port h [setRequest c port] None
  | Set_failed err :
      setResult remote c port h = Some err ->
      strings.Contains err "authentication expired" = false ->
      SetSite port h [setRequest c port] (Some SetFailed)
  | Set_reauth_failed err err' :
      setResult remote c port h = Some err ->
      strings.Contains err "authentication expired" = true ->
      loginResult remote c (h ++ [setRequest c port]) = Some err' ->
      SetSite port h [setRequest c port; loginRequest c]
              (Some SetReauthFailed)
  | Set_retry_failed err err' :
      setResult remote c port h = Some err ->
      strings.Contains err "authentication expired" = true ->
      loginResult remote c (h ++ [setRequest c port]) = None ->
      setResult remote c port
        (h ++ [setRequest c port; loginRequest c]) = Some err' ->
      SetSite port h [setRequest c port; loginRequest c; setRequest c port]
              (Some SetRetryFailed)
  | Set_retry_ok err :
      setResult remote c port h = Some err ->
      strings.Contains err "authentication expired" = true ->
      loginResult remote c (h ++ [setRequest c port]) = None ->
      setResult remote c port
        (h ++ [setRequest c port; loginRequest c]) = None ->
      SetSite port h [setRequest c port; loginRequest c; setRequest c port]
              None.

(** A cycle on [fs], started with [lastPort = last] after the requests
    [h]: [Cycle fs portFile last h exit last' getSite setSite]. *)
Inductive Cycle (fs : FS) (portFile : string) (last : Z)
    (h : list Request)
    : Exit -> Z -> list Request -> list Request -> Prop :=
  | Cycle_read_failed x err :
      readPortFile fs portFile = (x, Some err) ->
      Cycle fs portFile last h ReadFailed last [] []
  | Cycle_unchanged filePort :
      readPortFile fs portFile = (filePort, None) ->
      filePort = last ->
      Cycle fs portFile last h Unchanged last [] []
  | Cycle_get_abort filePort gets exit :
      readPortFile fs portFile = (filePort, None) ->
      filePort <> last ->
      GetSite h gets (inl exit) ->
      Cycle fs portFile last h exit last gets []
  | Cycle_satisfied filePort gets :
      readPortFile fs portFile = (filePort, None) ->
      filePort <> last ->
      GetSite h gets (inr filePort) ->
      Cycle fs portFile last h Completed filePort gets []
  | Cycle_set_abort filePort currentPort gets sets exit :
      readPortFile fs portFile = (filePort, None) ->
      filePort <> last ->
      GetSite h gets (inr currentPort) ->
      currentPort <> filePort ->
      SetSite filePort (h ++ gets) sets (Some exit) ->
      Cycle fs portFile last h exit last gets sets
  | Cycle_updated filePort currentPort gets sets :
      readPortFile fs portFile = (filePort, None) ->
      filePort <> last ->
      GetSite h gets (inr currentPort) ->
      currentPort <> filePort ->
      SetSite filePort (h ++ gets) sets None ->
      Cycle fs portFile last h Completed filePort gets sets.

End Runs.

(** ** The words of the specification

    A decimal integer: an optional sign followed by one or more of the
    digits 0 to 9; [decimalInteger s] is its value, and [None] when [s]
    is not of that form. *)

Definition isDigit (c : ascii) : bool := (48 <=? byte c) && (byte c <=? 57).

Fixpoint digitsValue (acc : Z) (s : string) : option Z :=
  match s with
  | EmptyString => Some acc
  | String c r =>
      if isDigit c then digitsValue (10 * acc + (byte c - 48)) r else None
  end.

Definition unsignedDecimal (s : string) : option Z :=
  match s with
  | EmptyString => None
  | _ => digitsValue 0 s
  end.

Definition decimalInteger (s : string) : option Z :=
  match s with
  | EmptyString => None
  | String c r =>
      if byte c =? 43 then unsignedDecimal r
      else if byte c =? 45 then option_map Z.opp (unsignedDecimal r)
      else unsignedDecimal s
  end.

(** White space of the ASCII kind only. *)
Fixpoint allAsciiSpace (s : string) : bool :=
  match s with
  | EmptyString => true
  | String c r => strings.asciiSpace (byte c) && allAsciiSpace r
  end.

(** The byte [c] does not occur in [s]. *)
Fixpoint lacks (c : ascii) (s : string) : bool :=
  match s with
  | EmptyString => true
  | String x r => negb (Ascii.eqb c x) && lacks c r
  end.

(** A valid port. *)
Definition validPort (p : Z) : Prop := 1 <= p <= 65535.

(** The text by which [syncPort] recognises an expired session. *)
Definition expiredText : string := "authentication expired".

(** ** Concrete worlds *)

Definition newline : string := String (char 10) "".

Definition exampleClient : QBittorrentClient :=
  {| baseURL := "http://localhost:30024";
     username := "admin";
     password := "adminadmin" |}.

Definition examplePortFile : string := "/tmp/gluetun/forwarded_port".

(** A file system whose port file holds [data]. *)
Definition fsWith (data : string) : FS := fun _ => (data, None).

(** A file system without the port file. *)
Definition fsMissing : FS :=
  fun name => ("", Some ("open " ++ name ++ ": no such file or directory")).

(** A decoder for the bodies of the concrete services below. *)
Definition exampleDecoder : Decoder :=
  fun body_ =>
    if (body_ =? marshalPrefs 6881)%string then Decoded (Some 6881)
    else if (body_ =? marshalPrefs 30100)%string then Decoded (Some 30100)
    else DecodeError "unexpected end of JSON input".

(** A service with a session that stays valid: it listens on [port]. *)
Definition steadyRemote (port : Z) : Remote :=
  fun _ rq =>
    match rq with
    | Get _ => Response 200 (marshalPrefs port)
    | PostForm _ _ => Response 200 "Ok."
    end.

(** A service that answers every request with the status [status] and
    the body [body_]. *)
Definition constRemote (status : Z) (body_ : string) : Remote :=
  fun _ _ => Response status body_.

(** A service whose session has expired: before the first login every
    request is answered 403; after it the service listens on [port]. *)
Definition expiringRemote (port : Z) : Remote :=
  fun h rq =>
    if existsb (fun r => if Request_eq_dec r (loginRequest exampleClient)
                         then true else false) h
    then steadyRemote port h rq
    else match rq with
         | Get _ => Response 403 "Forbidden"
         | PostForm _ data =>
             if existsb (fun kv => (fst kv =? "json")%string) data
             then Response 403 "Forbidden"
             else Response 200 ("Ok." ++ newline)
         end.

(** A service behind a proxy: it reports the port 6881, refuses to set
    the preferences with status 500 and a body that mentions an expired
    authentication, and accepts the login. *)
Definition proxyRemote : Remote :=
  fun _ rq =>
    match rq with
    | Get _ => Response 200 (marshalPrefs 6881)
    | PostForm _ data =>
        if existsb (fun kv => (fst kv =? "json")%string) data
        then Response 500 "upstream says: authentication expired"
        else Response 200 "Ok."
    end.

(** A service whose session expires between the two sites: it reports
    the port 6881, and refuses to set the preferences with 403 until a
    login after [startWorld]'s has been sent. *)
Definition lateExpiryRemote : Remote :=
  fun h rq =>
    match rq with
    | Get _ => Response 200 (marshalPrefs 6881)
    | PostForm _ data =>
        if existsb (fun kv => (fst kv =? "json")%string) data
        then if (2 <=? logins exampleClient h)%nat
             then Response 200 ""
             else Response 403 "Forbidden"
        else Response 200 "Ok."
    end.

(** The state of [main] when the loop starts: [lastPort] is zero, and
    the initial login has been sent. *)
Definition startWorld : World :=
  {| lastPort := 0;
     sent := [loginRequest exampleClient];
     logged := ["Successfully authenticated with qBittorrent"] |}.

(** One cycle of the example client. *)
Definition exampleCycle (remote : Remote) (fs : FS) (w : World)
    : Exit * World :=
  syncPort remote exampleDecoder fs exampleClient examplePortFile w.

(** An environment that sets the password, and one that also sets the
    interval. *)
Definition exampleEnv : Env :=
  fun key => if (key =? "QBITTORRENT_PASSWORD")%string then "adminadmin"
             else "".

Definition envWithInterval (value : string) : Env :=
  fun key => if (key =? "CHECK_INTERVAL")%string then value
             else exampleEnv key.

(** The port file is there, or is not. *)
Definition statPresent : Stat := fun _ => None.

Definition statMissing : Stat :=
  fun name => Some ("stat " ++ name ++ ": no such file or directory").

(** A rendering of durations, in whole seconds. *)
Definition secondsString : time.Duration -> string :=
  fun d => fmt.d (d / time.Second) ++ "s".

(** The state of the process when [main] starts. *)
Definition bootWorld : World := after [].

(** * Properties *)

(** Comparisons in [bool] as propositions, for [lia]. *)
Ltac zb H :=
  repeat first
    [ rewrite andb_true_iff in H | rewrite andb_false_iff in H
    | rewrite orb_true_iff in H | rewrite orb_false_iff in H
    | rewrite Z.leb_le in H | rewrite Z.leb_gt in H
    | rewrite Z.ltb_lt in H | rewrite Z.ltb_ge in H
    | rewrite Z.eqb_eq in H | rewrite Z.eqb_neq in H ].

Ltac split_if E :=
  match goal with
  | |- context [if ?b then _ else _] => destruct b eqn:E; zb E
  end.

(** ** The model at work *)

Example TrimSpace_port_file :
  strings.TrimSpace ("  30100" ++ newline) = "30100".
Proof. reflexivity. Qed.

(** U+00A0 in UTF-8 is white space; the lone byte 160 is not a rune and
    stays. *)
Example TrimSpace_unicode :
  strings.TrimSpace (String (char 194) (String (char 160) " Ok. " ++ newline))
    = "Ok." /\
  strings.TrimSpace (" Ok." ++ String (char 160) "")
    = "Ok." ++ String (char 160) "".
Proof. split; reflexivity. Qed.

Example Atoi_values :
  strconv.Atoi "30100" = (30100, None) /\
  strconv.Atoi "+0030100" = (30100, None) /\
  strconv.Atoi "-1" = (-1, None) /\
  strconv.Atoi "0000000000000000000000080" = (80, None) /\
  strconv.Atoi "9223372036854775807" = (9223372036854775807, None) /\
  strconv.Atoi "-9223372036854775808" = (-9223372036854775808, None).
Proof. repeat split; reflexivity. Qed.

Example Atoi_errors :
  strconv.Atoi "" = (0, Some strconv.ErrSyntax) /\
  strconv.Atoi "+" = (0, Some strconv.ErrSyntax) /\
  strconv.Atoi "abc" = (0, Some strconv.ErrSyntax) /\
  strconv.Atoi "30_100" = (0, Some strconv.ErrSyntax) /\
  strconv.Atoi "9223372036854775808"
    = (9223372036854775807, Some strconv.ErrRange) /\
  strconv.Atoi "-9223372036854775809"
    = (-9223372036854775808, Some strconv.ErrRange).
Proof. repeat split; reflexivity. Qed.

(** A missing or malformed port file: the cycle returns at once, nothing
    is sent and [lastPort] stays. *)
Example cycle_on_bad_file :
  let missing := exampleCycle (steadyRemote 6881) fsMissing startWorld in
  let garbled := exampleCycle (steadyRemote 6881) (fsWith "abc") startWorld in
  fst missing = ReadFailed /\ sent (snd missing) = sent startWorld /\
  lastPort (snd missing) = 0 /\
  fst garbled = ReadFailed /\ sent (snd garbled) = sent startWorld /\
  lastPort (snd garbled) = 0.
Proof. repeat split; reflexivity. Qed.

(** An expired session at the first request: one login, one retry, then
    the update. *)
Example cycle_on_expired_session :
  let run := exampleCycle (expiringRemote 6881) (fsWith "30100") (after []) in
  fst run = Completed /\
  sent (snd run)
    = [getRequest exampleClient; loginRequest exampleClient;
       getRequest exampleClient; setRequest exampleClient 30100] /\
  lastPort (snd run) = 30100 /\
  logged (snd run)
    = ["Port changed from 0 to 30100, updating qBittorrent...";
       "Session expired, re-authenticating...";
       "Successfully authenticated with qBittorrent";
       "qBittorrent current port: 6881";
       updatedMark
         ++ " Successfully updated qBittorrent listening port to 30100"].
Proof. repeat split; reflexivity. Qed.

(** The session expires before [SetListeningPort]: one login, then
    exactly one retried [SetListeningPort], and [lastPort] is the port of
    the file. *)
Example cycle_on_expiry_at_set :
  let run := exampleCycle lateExpiryRemote (fsWith "30200") startWorld in
  fst run = Completed /\
  sent (snd run)
    = (sent startWorld
       ++ [getRequest exampleClient; setRequest exampleClient 30200;
           loginRequest exampleClient; setRequest exampleClient 30200])%list /\
  lastPort (snd run) = 30200.
Proof. repeat split; reflexivity. Qed.

(** ** Bytes and strings *)

Lemma byte_range (c : ascii) : 0 <= byte c < 256.
Proof.
  unfold byte. pose proof (N_ascii_bounded c). lia.
Qed.

Lemma substring_all (s : string) : String.substring 0 (String.length s) s = s.
Proof.
  induction s as [|c r IH]; simpl; [reflexivity | now rewrite IH].
Qed.

Lemma from_1_cons (c : ascii) (r : string) : from 1 (String c r) = r.
Proof.
  unfold from, len. simpl. rewrite Nat.sub_0_r. apply substring_all.
Qed.

Lemma at_0_cons (c : ascii) (r : string) : at_ (String c r) 0 = byte c.
Proof. reflexivity. Qed.

Lemma append_assoc (a b c : string) : ((a ++ b) ++ c = a ++ (b ++ c))%string.
Proof.
  induction a as [|x a IH]; simpl; [reflexivity | now rewrite IH].
Qed.

Lemma HasPrefix_Contains (s substr : string) :
  strings.HasPrefix s substr = true -> strings.Contains s substr = true.
Proof.
  destruct s; simpl; intros ->; reflexivity.
Qed.

Lemma Contains_cons (c : ascii) (s substr : string) :
  strings.Contains s substr = true ->
  strings.Contains (String c s) substr = true.
Proof.
  intros H. cbn [strings.Contains]. rewrite H. apply orb_true_r.
Qed.

Lemma Contains_append_l (p s substr : string) :
  strings.Contains s substr = true ->
  strings.Contains (p ++ s) substr = true.
Proof.
  intros H. induction p as [|c p IH]; simpl append.
  - exact H.
  - now apply Contains_cons.
Qed.

Lemma HasPrefix_append_r (s t substr : string) :
  strings.HasPrefix s substr = true ->
  strings.HasPrefix (s ++ t) substr = true.
Proof.
  revert s. induction substr as [|p substr IH]; intros s H.
  - destruct s; [destruct t|]; reflexivity.
  - destruct s as [|c s]; simpl in *; [discriminate|].
    apply andb_true_iff in H as [-> H]. simpl. now apply IH.
Qed.

Lemma Contains_append_r (s t substr : string) :
  strings.Contains s substr = true ->
  strings.Contains (s ++ t) substr = true.
Proof.
  induction s as [|c s IH]; intros H.
  - simpl in H. rewrite orb_false_r in H.
    apply HasPrefix_Contains.
    destruct substr; [destruct t; reflexivity | discriminate].
  - cbn [strings.Contains] in H. apply orb_true_iff in H as [H|H].
    + apply HasPrefix_Contains.
      now apply (HasPrefix_append_r (String c s) t).
    + simpl append. apply Contains_cons. now apply IH.
Qed.

(** ** The loops of [strings.TrimSpace] run to their end

    The loops over runes are given [len s] steps.  Every step moves by
    the width of a rune, which is at least one byte, so the steps are
    enough: more of them change nothing. *)

Lemma substring_length (s : string) :
  forall n m, (n + m <= len s)%nat -> len (String.substring n m s) = m.
Proof.
  unfold len.
  induction s as [|c r IH]; intros n m H; simpl in H.
  - destruct n, m; try reflexivity; lia.
  - destruct n as [|n]; destruct m as [|m]; simpl; try reflexivity.
    + rewrite IH; [reflexivity | simpl; lia].
    + apply IH. lia.
    + apply IH. lia.
Qed.

Lemma len_from (i : nat) (s : string) :
  (i <= len s)%nat -> len (from i s) = (len s - i)%nat.
Proof. intros H. unfold from. apply substring_length. lia. Qed.

Lemma len_upto (j : nat) (s : string) :
  (j <= len s)%nat -> len (upto j s) = j.
Proof. intros H. unfold upto. apply substring_length. lia. Qed.

Lemma len_slice (i j : nat) (s : string) :
  (i <= j)%nat -> (j <= len s)%nat -> len (slice i j s) = (j - i)%nat.
Proof. intros Hi Hj. unfold slice. apply substring_length. lia. Qed.

Lemma DecodeRuneInString_width (s : string) :
  (1 <= len s)%nat ->
  (1 <= snd (utf8.DecodeRuneInString s) <= 4)%nat.
Proof.
  intros H. unfold utf8.DecodeRuneInString.
  destruct (len s <? 1)%nat eqn:Hn; [apply Nat.ltb_lt in Hn; lia|].
  repeat match goal with
    | |- context [match utf8.first ?b with _ => _ end] =>
        destruct (utf8.first b) as [[? [? ?]]|]
    | |- context [if ?b then _ else _] => destruct b
    end;
    cbn [snd]; lia.
Qed.

Lemma DecodeRuneInString_empty (s : string) :
  len s = 0%nat -> snd (utf8.DecodeRuneInString s) = 0%nat.
Proof. intros H. unfold utf8.DecodeRuneInString. now rewrite H. Qed.

Lemma findStart_le (fuel : nat) (s : string) :
  forall start lim, utf8.findStart fuel s start lim <= start.
Proof.
  induction fuel as [|k IH]; intros start lim; cbn [utf8.findStart]; [lia|].
  destruct (start <? lim); [lia|].
  destruct (utf8.RuneStart _); [lia|].
  specialize (IH (start - 1) lim). lia.
Qed.

(** The search for the start of the last rune stops within [UTFMax]
    steps. *)
Lemma findStart_enough (s : string) (lim : Z) :
  forall fuel extra start,
    start - lim + 2 <= Z.of_nat fuel ->
    utf8.findStart (fuel + extra) s start lim = utf8.findStart fuel s start lim.
Proof.
  induction fuel as [|k IH]; intros extra start H.
  - destruct extra; cbn [utf8.findStart Nat.add]; [reflexivity|].
    destruct (Z.ltb_spec start lim); [reflexivity | lia].
  - cbn [utf8.findStart Nat.add].
    destruct (start <? lim); [reflexivity|].
    destruct (utf8.RuneStart _); [reflexivity|].
    apply IH. lia.
Qed.

Lemma findStart_UTFMax (s : string) (extra : nat) :
  let end_ := Z.of_nat (len s) in
  let lim := Z.max 0 (end_ - Z.of_nat utf8.UTFMax) in
  utf8.findStart (utf8.UTFMax + extra) s (end_ - 2) lim
    = utf8.findStart utf8.UTFMax s (end_ - 2) lim.
Proof.
  intros end_ lim. apply findStart_enough.
  subst lim. unfold utf8.UTFMax. lia.
Qed.

Lemma DecodeLastRuneInString_width (s : string) :
  (1 <= len s)%nat ->
  (1 <= snd (utf8.DecodeLastRuneInString s) <= 4)%nat.
Proof.
  intros H. unfold utf8.DecodeLastRuneInString.
  destruct (len s =? 0)%nat eqn:Hn; [apply Nat.eqb_eq in Hn; lia|].
  destruct (_ <? utf8.RuneSelf); [cbn; lia|].
  set (start := Z.to_nat (Z.max 0 (utf8.findStart _ _ _ _))).
  assert (Hstart : (start < len s)%nat).
  { subst start.
    pose proof (findStart_le utf8.UTFMax s (Z.of_nat (len s) - 2)
                  (Z.max 0 (Z.of_nat (len s) - Z.of_nat utf8.UTFMax))).
    lia. }
  pose proof (DecodeRuneInString_width (slice start (len s) s)) as Hw.
  rewrite len_slice in Hw by lia. specialize (Hw ltac:(lia)).
  destruct (utf8.DecodeRuneInString (slice start (len s) s)) as [r size].
  cbn [snd] in Hw.
  destruct (start + size =? len s)%nat; cbn [snd]; lia.
Qed.

Lemma indexFuncFrom_enough (s : string) (f : Z -> bool) (truth : bool) :
  forall fuel extra i,
    (len s - i <= fuel)%nat ->
    strings.indexFuncFrom (fuel + extra) s i f truth
      = strings.indexFuncFrom fuel s i f truth.
Proof.
  induction fuel as [|k IH]; intros extra i H.
  - destruct extra; cbn [strings.indexFuncFrom Nat.add]; [reflexivity|].
    destruct (Nat.leb_spec (len s) i); [reflexivity | lia].
  - cbn [strings.indexFuncFrom Nat.add].
    destruct (Nat.leb_spec (len s) i) as [|Hi]; [reflexivity|].
    pose proof (DecodeRuneInString_width (from i s)) as Hw.
    rewrite len_from in Hw by lia. specialize (Hw ltac:(lia)).
    destruct (utf8.DecodeRuneInString (from i s)) as [r size].
    cbn [snd] in Hw.
    destruct (Bool.eqb (f r) truth); [reflexivity|].
    apply IH. lia.
Qed.

Lemma lastIndexFuncFrom_enough (s : string) (f : Z -> bool) (truth : bool) :
  forall fuel extra i,
    (i <= fuel)%nat -> (i <= len s)%nat ->
    strings.lastIndexFuncFrom (fuel + extra) s i f truth
      = strings.lastIndexFuncFrom fuel s i f truth.
Proof.
  induction fuel as [|k IH]; intros extra i H Hs.
  - destruct extra; cbn [strings.lastIndexFuncFrom Nat.add]; [reflexivity|].
    destruct (Nat.leb_spec i 0); [reflexivity | lia].
  - cbn [strings.lastIndexFuncFrom Nat.add].
    destruct (Nat.leb_spec i 0) as [|Hi]; [reflexivity|].
    pose proof (DecodeLastRuneInString_width (upto i s)) as Hw.
    rewrite len_upto in Hw by lia. specialize (Hw ltac:(lia)).
    destruct (utf8.DecodeLastRuneInString (upto i s)) as [r size].
    cbn [snd] in Hw.
    destruct (Bool.eqb (f r) truth); [reflexivity|].
    apply IH; lia.
Qed.

(** [indexFunc] and [lastIndexFunc] are the loops of Go run to their
    end: with any larger number of steps they return the same. *)
Lemma indexFunc_enough (s : string) (f : Z -> bool) (truth : bool)
    (extra : nat) :
  strings.indexFuncFrom (len s + extra) s 0 f truth
    = strings.indexFunc s f truth.
Proof. unfold strings.indexFunc. apply indexFuncFrom_enough. lia. Qed.

Lemma lastIndexFunc_enough (s : string) (f : Z -> bool) (truth : bool)
    (extra : nat) :
  strings.lastIndexFuncFrom (len s + extra) s (len s) f truth
    = strings.lastIndexFunc s f truth.
Proof. unfold strings.lastIndexFunc. apply lastIndexFuncFrom_enough; lia. Qed.

(** ** [strings.TrimSpace] on ASCII padding *)

Lemma at_append_l (a b : string) (k : nat) :
  (k < len a)%nat -> at_ (a ++ b) k = at_ a k.
Proof.
  intros H. unfold at_. now rewrite <- append_correct1.
Qed.

Lemma at_append_r (a b : string) (j : nat) :
  at_ (a ++ b) (len a + j) = at_ b j.
Proof.
  unfold at_, len. rewrite Nat.add_comm. now rewrite <- append_correct2.
Qed.

Lemma upto_append (a b : string) : upto (len a) (a ++ b) = a.
Proof.
  unfold upto, len.
  induction a as [|c a IH]; simpl.
  - destruct b; reflexivity.
  - now rewrite IH.
Qed.

Lemma upto_append_more (a b : string) (j : nat) :
  upto (len a + j) (a ++ b) = a ++ upto j b.
Proof.
  unfold upto, len.
  induction a as [|c a IH]; simpl; [reflexivity | now rewrite IH].
Qed.

Lemma len_append (a b : string) : len (a ++ b) = (len a + len b)%nat.
Proof.
  unfold len. induction a as [|c a IH]; simpl; [reflexivity | now rewrite IH].
Qed.

Lemma asciiSpace_ascii (c : Z) :
  strings.asciiSpace c = true -> c < utf8.RuneSelf.
Proof.
  unfold strings.asciiSpace, utf8.RuneSelf. intros H. zb H. lia.
Qed.

Lemma allAsciiSpace_at (ws : string) (j : nat) :
  allAsciiSpace ws = true -> (j < len ws)%nat ->
  strings.asciiSpace (at_ ws j) = true.
Proof.
  revert j. induction ws as [|c r IH]; intros j H Hj; simpl in Hj; [lia|].
  cbn [allAsciiSpace] in H. apply andb_true_iff in H as [Hc Hr].
  destruct j as [|j]; [exact Hc|].
  change (at_ (String c r) (S j)) with (at_ r j). apply IH; [exact Hr | lia].
Qed.

(** The second loop walks back over the padding and stops at the last
    byte of [core]. *)
Lemma trimSpaceStop_padding (core ws : string) :
  (1 <= len core)%nat ->
  at_ core (len core - 1) < utf8.RuneSelf ->
  strings.asciiSpace (at_ core (len core - 1)) = false ->
  allAsciiSpace ws = true ->
  forall j, (j <= len ws)%nat ->
    strings.trimSpaceStop (core ++ ws) (len core + j) = core.
Proof.
  intros Hne Hascii Hlast Hws.
  induction j as [|j IH]; intros Hj.
  - rewrite Nat.add_0_r.
    destruct (len core) as [|k] eqn:Hk; [lia|].
    cbn [strings.trimSpaceStop].
    replace (S k - 1)%nat with k in * by lia.
    rewrite at_append_l by lia.
    destruct (Z.leb_spec utf8.RuneSelf (at_ core k)); [lia|].
    rewrite Hlast. rewrite <- Hk. apply upto_append.
  - replace (len core + S j)%nat with (S (len core + j)) by lia.
    cbn [strings.trimSpaceStop].
    rewrite at_append_r.
    pose proof (allAsciiSpace_at ws j Hws ltac:(lia)) as Hsp.
    pose proof (asciiSpace_ascii _ Hsp) as Hlt.
    destruct (Z.leb_spec utf8.RuneSelf (at_ ws j)); [lia|].
    rewrite Hsp. apply IH. lia.
Qed.

(** A text that begins and ends with ASCII bytes that are not spaces,
    padded with ASCII spaces on both sides, is trimmed to itself. *)
Lemma TrimSpace_ascii_padding (ws1 core ws2 : string) :
  allAsciiSpace ws1 = true ->
  allAsciiSpace ws2 = true ->
  (1 <= len core)%nat ->
  at_ core 0 < utf8.RuneSelf ->
  strings.asciiSpace (at_ core 0) = false ->
  at_ core (len core - 1) < utf8.RuneSelf ->
  strings.asciiSpace (at_ core (len core - 1)) = false ->
  strings.TrimSpace (ws1 ++ core ++ ws2) = core.
Proof.
  intros Hws1 Hws2 Hne Hfirst Hnsp Hlast Hlsp.
  induction ws1 as [|c r IH].
  - cbn [append].
    destruct core as [|c0 rest] eqn:Hcore; [simpl in Hne; lia|].
    rewrite at_0_cons in Hfirst, Hnsp.
    change (String c0 rest ++ ws2) with (String c0 (rest ++ ws2)).
    cbn [strings.TrimSpace].
    destruct (Z.leb_spec utf8.RuneSelf (byte c0)); [lia|].
    rewrite Hnsp.
    change (String c0 (rest ++ ws2)) with (String c0 rest ++ ws2).
    rewrite len_append.
    apply trimSpaceStop_padding; try assumption. lia.
  - cbn [allAsciiSpace] in Hws1. apply andb_true_iff in Hws1 as [Hc Hr].
    change (String c r ++ core ++ ws2) with (String c (r ++ core ++ ws2)).
    cbn [strings.TrimSpace].
    pose proof (asciiSpace_ascii _ Hc) as Hlt.
    destruct (Z.leb_spec utf8.RuneSelf (byte c)); [lia|].
    rewrite Hc. apply IH. exact Hr.
Qed.

(** ** [strconv.Atoi] reads decimal integers *)

Lemma pow10_succ (n : nat) : 10 ^ Z.of_nat (S n) = 10 * 10 ^ Z.of_nat n.
Proof. rewrite Nat2Z.inj_succ, Z.pow_succ_r; lia. Qed.

Lemma pow10_pos (n : nat) : 0 < 10 ^ Z.of_nat n.
Proof. apply Z.pow_pos_nonneg; lia. Qed.

Lemma isDigit_range (c : ascii) : isDigit c = true <-> 48 <= byte c <= 57.
Proof. unfold isDigit. rewrite andb_true_iff. lia. Qed.

Lemma digitsValue_bounds (s : string) :
  forall n v, 0 <= n -> digitsValue n s = Some v ->
    n * 10 ^ Z.of_nat (len s) <= v < (n + 1) * 10 ^ Z.of_nat (len s).
Proof.
  induction s as [|c r IH]; intros n v Hn H.
  - injection H as <-. simpl. lia.
  - cbn [digitsValue] in H.
    destruct (isDigit c) eqn:Hd; [|discriminate].
    apply isDigit_range in Hd.
    apply IH in H; [|lia].
    change (len (String c r)) with (S (len r)). rewrite pow10_succ.
    pose proof (pow10_pos (len r)). nia.
Qed.

Lemma digitsValue_ge (s : string) (n v : Z) :
  0 <= n -> digitsValue n s = Some v -> n <= v.
Proof.
  intros Hn H. apply digitsValue_bounds in H; [|lia].
  pose proof (pow10_pos (len s)). nia.
Qed.

Lemma wrapInt_small (z : Z) :
  - 2 ^ 63 <= z < 2 ^ 63 -> strconv.wrapInt z = z.
Proof.
  intros H. unfold strconv.wrapInt.
  change (2 ^ 63) with 9223372036854775808 in *.
  change (2 ^ 64) with 18446744073709551616.
  rewrite Z.mod_small; lia.
Qed.

Lemma atoiLoop_spec (s : string) :
  forall n, 0 <= n -> (n + 1) * 10 ^ Z.of_nat (len s) <= 10 ^ 18 ->
    strconv.atoiLoop n s =
      match digitsValue n s with
      | Some v => (v, None)
      | None => (0, Some strconv.ErrSyntax)
      end.
Proof.
  induction s as [|c r IH]; intros n Hn Hb; [reflexivity|].
  change (len (String c r)) with (S (len r)) in Hb. rewrite pow10_succ in Hb.
  pose proof (pow10_pos (len r)) as HP.
  pose proof (byte_range c) as Hc.
  cbn [strconv.atoiLoop digitsValue]. unfold strconv.wrapByte.
  destruct (isDigit c) eqn:Hd.
  - apply isDigit_range in Hd.
    rewrite (Z.mod_small (byte c - 48)) by lia.
    replace (9 <? byte c - 48) with false by (symmetry; apply Z.ltb_ge; lia).
    change (10 ^ 18) with 1000000000000000000 in *.
    rewrite wrapInt_small
      by (change (2 ^ 63) with 9223372036854775808; nia).
    replace (n * 10 + (byte c - 48)) with (10 * n + (byte c - 48)) by ring.
    apply IH; [lia | nia].
  - assert (Hnd : ~ 48 <= byte c <= 57)
      by (rewrite <- isDigit_range, Hd; discriminate).
    replace (9 <? (byte c - 48) mod 256) with true; [reflexivity|].
    symmetry. apply Z.ltb_lt.
    destruct (Z_lt_ge_dec (byte c) 48).
    + replace (byte c - 48) with (byte c + 208 + (-1) * 256) by ring.
      rewrite Z.mod_add, Z.mod_small; lia.
    + rewrite Z.mod_small; lia.
Qed.

Lemma parseUintLoop_spec (s : string) :
  forall n, 0 <= n <= strconv.maxUint64 ->
    match digitsValue n s with
    | Some v =>
        strconv.parseUintLoop n s =
          if v <=? strconv.maxUint64 then (v, None)
          else (strconv.maxVal, Some strconv.ErrRange)
    | None =>
        strconv.parseUintLoop n s = (0, Some strconv.ErrSyntax) \/
        strconv.parseUintLoop n s = (strconv.maxVal, Some strconv.ErrRange)
    end.
Proof.
  unfold strconv.maxUint64, strconv.maxVal, strconv.intSize.
  change (2 ^ 64 - 1) with 18446744073709551615.
  induction s as [|c r IH]; intros n Hn.
  - simpl. replace (n <=? 18446744073709551615) with true; [reflexivity|].
    symmetry. apply Z.leb_le. lia.
  - pose proof (byte_range c) as Hc.
    cbn [strconv.parseUintLoop digitsValue].
    unfold strconv.wrapByte, strconv.base, strconv.cutoff, strconv.maxVal,
      strconv.maxUint64, strconv.intSize, strconv.wrapUint64.
    change (2 ^ 64 - 1) with 18446744073709551615.
    change (18446744073709551615 / 10 + 1) with 1844674407370955162.
    change (2 ^ 64) with 18446744073709551616.
    destruct (isDigit c) eqn:Hd.
    + pose proof Hd as Hd'. apply isDigit_range in Hd'.
      unfold isDigit in Hd. rewrite Hd.
      rewrite (Z.mod_small (byte c - 48)) by lia.
      replace (10 <=? byte c - 48) with false
        by (symmetry; apply Z.leb_gt; lia).
      destruct (1844674407370955162 <=? n) eqn:Hcut.
      * apply Z.leb_le in Hcut.
        destruct (digitsValue (10 * n + (byte c - 48)) r) as [v|] eqn:Hv.
        -- apply digitsValue_ge in Hv; [|lia].
           replace (v <=? 18446744073709551615) with false; [reflexivity|].
           symmetry. apply Z.leb_gt. lia.
        -- now right.
      * apply Z.leb_gt in Hcut.
        rewrite (Z.mod_small (n * 10)) by lia.
        destruct (Z_le_gt_dec (n * 10 + (byte c - 48)) 18446744073709551615)
          as [Hfit|Hover].
        -- rewrite (Z.mod_small (n * 10 + (byte c - 48))) by lia.
           replace (n * 10 + (byte c - 48) <? n * 10) with false
             by (symmetry; apply Z.ltb_ge; lia).
           replace (18446744073709551615 <? n * 10 + (byte c - 48)) with false
             by (symmetry; apply Z.ltb_ge; lia).
           cbn [orb].
           replace (n * 10 + (byte c - 48)) with (10 * n + (byte c - 48))
             by ring.
           apply IH. lia.
        -- replace (n * 10 + (byte c - 48))
             with (n * 10 + (byte c - 48) - 18446744073709551616
                   + 1 * 18446744073709551616) by ring.
           rewrite Z.mod_add by lia. rewrite Z.mod_small by lia.
           replace (n * 10 + (byte c - 48) - 18446744073709551616 <? n * 10)
             with true by (symmetry; apply Z.ltb_lt; lia).
           cbn [orb].
           destruct (digitsValue (10 * n + (byte c - 48)) r) as [v|] eqn:Hv.
           ++ apply digitsValue_ge in Hv; [|lia].
              replace (v <=? 18446744073709551615) with false; [reflexivity|].
              symmetry. apply Z.leb_gt. lia.
           ++ now right.
    + left. unfold isDigit in Hd. rewrite Hd.
      destruct ((97 <=? strconv.lower (byte c))
                && (strconv.lower (byte c) <=? 122)) eqn:Hl; [|reflexivity].
      apply andb_true_iff in Hl as [Hl1 Hl2].
      apply Z.leb_le in Hl1. apply Z.leb_le in Hl2.
      rewrite Z.mod_small by lia.
      replace (10 <=? strconv.lower (byte c) - 97 + 10) with true;
        [reflexivity|].
      symmetry. apply Z.leb_le. lia.
Qed.

Lemma unsignedDecimal_fast (s : string) :
  (len s < 19)%nat ->
  match unsignedDecimal s with
  | Some v =>
      s <> EmptyString /\ strconv.atoiLoop 0 s = (v, None) /\
      0 <= v < 10 ^ 18
  | None =>
      s = EmptyString \/ strconv.atoiLoop 0 s = (0, Some strconv.ErrSyntax)
  end.
Proof.
  intros Hlen.
  assert (Hb : (0 + 1) * 10 ^ Z.of_nat (len s) <= 10 ^ 18).
  { rewrite Z.mul_1_l. apply Z.pow_le_mono_r; lia. }
  pose proof (atoiLoop_spec s 0 ltac:(lia) Hb) as Hloop.
  destruct s as [|c r]; [now left|].
  unfold unsignedDecimal.
  destruct (digitsValue 0 (String c r)) as [v|] eqn:Hv.
  - split; [discriminate|]. split; [exact Hloop|].
    apply digitsValue_bounds in Hv; lia.
  - now right.
Qed.

Lemma ParseInt_spec (c : ascii) (r : string) :
  let neg := byte c =? 45 in
  let s' := if (byte c =? 43) || (byte c =? 45) then r else String c r in
  s' <> EmptyString ->
  match digitsValue 0 s' with
  | Some v =>
      let p := if neg then - v else v in
      if (- 2 ^ 63 <=? p) && (p <? 2 ^ 63)
      then strconv.ParseInt (String c r) = (p, None)
      else exists u, strconv.ParseInt (String c r) = (u, Some strconv.ErrRange)
  | None =>
      exists u e, strconv.ParseInt (String c r) = (u, Some e)
  end.
Proof.
  intros neg s' Hne.
  pose proof (parseUintLoop_spec s' 0) as Hloop.
  unfold strconv.ParseInt. cbv zeta. fold s'. fold neg.
  assert (HU : strconv.ParseUint s' = strconv.parseUintLoop 0 s')
    by (destruct s'; [contradiction | reflexivity]).
  rewrite HU. clear HU.
  unfold strconv.maxUint64, strconv.maxVal, strconv.intSize in *.
  change (2 ^ 64 - 1) with 18446744073709551615 in *.
  change (2 ^ (64 - 1)) with 9223372036854775808.
  change (2 ^ 63) with 9223372036854775808.
  assert (Hrange : 0 <= 0 <= 18446744073709551615) by lia.
  specialize (Hloop Hrange). clear Hrange.
  destruct (digitsValue 0 s') as [v|] eqn:Hv.
  - pose proof (digitsValue_ge _ _ _ (Z.le_refl 0) Hv) as Hv0.
    rewrite Hloop. clear Hloop. cbv zeta.
    destruct (v <=? 18446744073709551615) eqn:Hfit; zb Hfit.
    + destruct neg; cbn [negb andb].
      * destruct (9223372036854775808 <? v) eqn:Hcut; zb Hcut;
          split_if Hp; try lia; [eauto|].
        f_equal.
        destruct (Z.eq_dec v 9223372036854775808) as [->|Hneq];
          [reflexivity|].
        rewrite (wrapInt_small v)
          by (change (2 ^ 63) with 9223372036854775808; lia).
        apply wrapInt_small.
        change (2 ^ 63) with 9223372036854775808; lia.
      * destruct (9223372036854775808 <=? v) eqn:Hcut; zb Hcut;
          split_if Hp; try lia; [eauto|].
        f_equal. apply wrapInt_small.
        change (2 ^ 63) with 9223372036854775808; lia.
    + destruct neg; cbn [negb andb]; split_if Hp; try lia; cbn; eauto.
  - destruct Hloop as [-> | ->]; [eauto|].
    destruct neg; cbn; eauto.
Qed.

(** [Atoi] returns the value of a decimal integer that fits an [int],
    and an error on every other string. *)
Lemma Atoi_spec (s : string) :
  match decimalInteger s with
  | Some v =>
      if (- 2 ^ 63 <=? v) && (v <? 2 ^ 63)
      then strconv.Atoi s = (v, None)
      else exists u, strconv.Atoi s = (u, Some strconv.ErrRange)
  | None => exists u e, strconv.Atoi s = (u, Some e)
  end.
Proof.
  destruct s as [|c r]; [cbn; eauto|].
  unfold strconv.Atoi.
  rewrite at_0_cons, from_1_cons.
  change (len (String c r)) with (S (len r)).
  change (0 <? S (len r))%nat with true. cbn [andb].
  destruct (S (len r) <? 19)%nat eqn:Hfast.
  - (* the fast path *)
    apply Nat.ltb_lt in Hfast.
    cbn [decimalInteger].
    change (2 ^ 63) with 9223372036854775808.
    assert (Hlen1 : r <> EmptyString -> (len r <? 1)%nat = false)
      by (intros Hne; apply Nat.ltb_ge; destruct r;
          [contradiction | simpl; lia]).
    destruct (byte c =? 45) eqn:Hminus; [|destruct (byte c =? 43) eqn:Hplus];
      cbn [orb].
    + replace (byte c =? 43) with false
        by (symmetry; apply Z.eqb_neq; apply Z.eqb_eq in Hminus; lia).
      pose proof (unsignedDecimal_fast r ltac:(lia)) as Hr.
      destruct (unsignedDecimal r) as [v|]; cbn [option_map].
      * destruct Hr as (Hne & Hloop & Hv).
        change (10 ^ 18) with 1000000000000000000 in Hv.
        rewrite (Hlen1 Hne), Hloop.
        split_if Hp; [|lia].
        f_equal. apply wrapInt_small.
        change (2 ^ 63) with 9223372036854775808; lia.
      * destruct Hr as [-> | Hloop]; [cbn; eauto|].
        destruct (len r <? 1)%nat; [|rewrite Hloop]; eauto.
    + pose proof (unsignedDecimal_fast r ltac:(lia)) as Hr.
      destruct (unsignedDecimal r) as [v|].
      * destruct Hr as (Hne & Hloop & Hv).
        change (10 ^ 18) with 1000000000000000000 in Hv.
        rewrite (Hlen1 Hne), Hloop.
        split_if Hp; [reflexivity|lia].
      * destruct Hr as [-> | Hloop]; [cbn; eauto|].
        destruct (len r <? 1)%nat; [|rewrite Hloop]; eauto.
    + pose proof (unsignedDecimal_fast (String c r) ltac:(simpl; lia)) as Hr.
      destruct (unsignedDecimal (String c r)) as [v|].
      * destruct Hr as (Hne & Hloop & Hv).
        change (10 ^ 18) with 1000000000000000000 in Hv.
        rewrite Hloop.
        split_if Hp; [reflexivity|lia].
      * destruct Hr as [Hr | Hloop]; [discriminate | rewrite Hloop; eauto].
  - (* through ParseInt *)
    apply Nat.ltb_ge in Hfast.
    assert (Hr : r <> EmptyString)
      by (destruct r; [simpl in Hfast; lia | discriminate]).
    pose proof (ParseInt_spec c r) as HP. cbv zeta in HP.
    cbn [decimalInteger].
    destruct (byte c =? 43) eqn:Hplus.
    + replace (byte c =? 45) with false in HP
        by (symmetry; apply Z.eqb_neq; apply Z.eqb_eq in Hplus; lia).
      cbn [orb] in HP. specialize (HP Hr).
      replace (unsignedDecimal r) with (digitsValue 0 r)
        by (destruct r; [contradiction | reflexivity]).
      destruct (digitsValue 0 r) as [v|].
      * destruct ((- 2 ^ 63 <=? v) && (v <? 2 ^ 63)).
        -- now rewrite HP.
        -- destruct HP as [u ->]. eauto.
      * destruct HP as (u & e & ->). eauto.
    + destruct (byte c =? 45) eqn:Hminus; cbn [orb] in HP.
      * specialize (HP Hr).
        replace (unsignedDecimal r) with (digitsValue 0 r)
          by (destruct r; [contradiction | reflexivity]).
        destruct (digitsValue 0 r) as [v|]; cbn [option_map].
        -- destruct ((- 2 ^ 63 <=? - v) && (- v <? 2 ^ 63)).
           ++ now rewrite HP.
           ++ destruct HP as [u ->]. eauto.
        -- destruct HP as (u & e & ->). eauto.
      * specialize (HP ltac:(discriminate)).
        change (unsignedDecimal (String c r)) with (digitsValue 0 (String c r)).
        destruct (digitsValue 0 (String c r)) as [v|].
        -- destruct ((- 2 ^ 63 <=? v) && (v <? 2 ^ 63)).
           ++ now rewrite HP.
           ++ destruct HP as [u ->]. eauto.
        -- destruct HP as (u & e & ->). eauto.
Qed.

(** ** The methods of the client

    Each method sends exactly one request, leaves [lastPort] alone, and
    its result depends on the world only through the requests already
    sent. *)

Section Client.

Variable remote : Remote.
Variable decodePrefs : Decoder.

Lemma Login_eq (c : QBittorrentClient) (w : World) :
  Login remote c w =
    (loginResult remote c (sent w),
     match loginResult remote c (sent w) with
     | None => addLog "Successfully authenticated with qBittorrent"
                      (addRequest (loginRequest c) w)
     | Some _ => addRequest (loginRequest c) w
     end).
Proof.
  unfold loginResult, Login, body, andThen, httpClient_PostForm,
    httpClient_do, return_, skip, pure, log_Println, log_Printf, loginRequest.
  cbn [sent after].
  destruct (remote (sent w) _) as [msg|status body_]; [reflexivity|].
  destruct (negb (status =? StatusOK)
            || negb (strings.TrimSpace body_ =? "Ok.")%string); reflexivity.
Qed.

Lemma GetListeningPort_eq (c : QBittorrentClient) (w : World) :
  GetListeningPort remote decodePrefs c w =
    (getResult remote decodePrefs c (sent w), addRequest (getRequest c) w).
Proof.
  unfold getResult, GetListeningPort, body, andThen, httpClient_Get,
    httpClient_do, return_, skip, pure, getRequest.
  cbn [sent after].
  destruct (remote (sent w) _) as [msg|status body_]; [reflexivity|].
  destruct (status =? StatusForbidden); [reflexivity|].
  destruct (negb (status =? StatusOK)); [reflexivity|].
  destruct (decodePrefs body_) as [msg|[port|]]; reflexivity.
Qed.

Lemma SetListeningPort_eq (c : QBittorrentClient) (port : Z) (w : World) :
  SetListeningPort remote c port w =
    (setResult remote c port (sent w), addRequest (setRequest c port) w).
Proof.
  unfold setResult, SetListeningPort, body, andThen, httpClient_PostForm,
    httpClient_do, return_, skip, pure, setRequest.
  cbn [sent after].
  destruct (remote (sent w) _) as [msg|status body_]; [reflexivity|].
  destruct (status =? StatusForbidden); [reflexivity|].
  destruct (negb (status =? StatusOK)); reflexivity.
Qed.

(** The results in terms of the answer of the service. *)

Lemma loginResult_eq (c : QBittorrentClient) (h : list Request) :
  loginResult remote c h =
    match remote h (loginRequest c) with
    | TransportError err => Some ("login request failed: " ++ err)
    | Response status body_ =>
        if negb (status =? StatusOK)
           || negb (strings.TrimSpace body_ =? "Ok.")%string
        then Some ("login failed: status=" ++ fmt.d status ++ ", body="
                     ++ strings.TrimSpace body_)
        else None
    end.
Proof.
  unfold loginResult, Login, body, andThen, httpClient_PostForm,
    httpClient_do, return_, skip, pure, log_Println, log_Printf, loginRequest.
  cbn [sent after].
  destruct (remote h _) as [msg|status body_]; [reflexivity|].
  destruct (negb (status =? StatusOK)
            || negb (strings.TrimSpace body_ =? "Ok.")%string); reflexivity.
Qed.

Lemma getResult_eq (c : QBittorrentClient) (h : list Request) :
  getResult remote decodePrefs c h =
    match remote h (getRequest c) with
    | TransportError err => (0, Some ("failed to get preferences: " ++ err))
    | Response status body_ =>
        if status =? StatusForbidden then (0, Some "authentication expired")
        else if negb (status =? StatusOK)
        then (0, Some ("unexpected status code: " ++ fmt.d status))
        else match decodePrefs body_ with
             | DecodeError err =>
                 (0, Some ("failed to decode preferences: " ++ err))
             | Decoded None =>
                 (0, Some "listen_port not found in preferences")
             | Decoded (Some port) => (port, None)
             end
    end.
Proof.
  unfold getResult, GetListeningPort, body, andThen, httpClient_Get,
    httpClient_do, return_, skip, pure, getRequest.
  cbn [sent after].
  destruct (remote h _) as [msg|status body_]; [reflexivity|].
  destruct (status =? StatusForbidden); [reflexivity|].
  destruct (negb (status =? StatusOK)); [reflexivity|].
  destruct (decodePrefs body_) as [msg|[port|]]; reflexivity.
Qed.

Lemma setResult_eq (c : QBittorrentClient) (port : Z) (h : list Request) :
  setResult remote c port h =
    match remote h (setRequest c port) with
    | TransportError err => Some ("failed to set preferences: " ++ err)
    | Response status body_ =>
        if status =? StatusForbidden then Some "authentication expired"
        else if negb (status =? StatusOK)
        then Some ("unexpected status code: " ++ fmt.d status
                     ++ ", body: " ++ body_)
        else None
    end.
Proof.
  unfold setResult, SetListeningPort, body, andThen, httpClient_PostForm,
    httpClient_do, return_, skip, pure, setRequest.
  cbn [sent after].
  destruct (remote h _) as [msg|status body_]; [reflexivity|].
  destruct (status =? StatusForbidden); [reflexivity|].
  destruct (negb (status =? StatusOK)); reflexivity.
Qed.

End Client.

(** ** Every call of [syncPort] is a run *)

Section Sync.

Variable remote : Remote.
Variable decodePrefs : Decoder.

#[local] Arguments getResult : simpl never.
#[local] Arguments setResult : simpl never.
#[local] Arguments loginResult : simpl never.
#[local] Arguments append : simpl never.
#[local] Arguments strings.Contains : simpl never.

Ltac step :=
  match goal with
  | |- context [GetListeningPort _ _ ?c ?w] =>
      rewrite (GetListeningPort_eq _ _ c w)
  | |- context [Login _ ?c ?w] => rewrite (Login_eq _ c w)
  | |- context [SetListeningPort _ ?c ?p ?w] =>
      rewrite (SetListeningPort_eq _ c p w)
  | |- context [getResult ?r ?d ?c ?h] =>
      destruct (getResult r d c h) as [? [?|]] eqn:?
  | |- context [loginResult ?r ?c ?h] =>
      destruct (loginResult r c h) eqn:?
  | |- context [setResult ?r ?c ?p ?h] =>
      destruct (setResult r c p h) eqn:?
  | |- context [strings.Contains ?e ?t] =>
      destruct (strings.Contains e t) eqn:?
  | |- context [negb (?a =? ?b)] =>
      let E := fresh "Hcmp" in
      destruct (a =? b) eqn:E;
      [apply Z.eqb_eq in E; subst | apply Z.eqb_neq in E]
  end;
  cbn; rewrite <- ?app_assoc; cbn [app].

Ltac site :=
  solve [econstructor; rewrite <- ?app_assoc; cbn [app]; eassumption].

Ltac leaf :=
  let H := fresh in
  intros H; injection H as <- <-;
  eexists; eexists; split; cycle 1;
  [ cbn;
    first
      [ eapply Cycle_get_abort; [eassumption | assumption | site]
      | eapply Cycle_satisfied; [eassumption | assumption | site]
      | eapply Cycle_set_abort;
        [eassumption | assumption | site | assumption | site]
      | eapply Cycle_updated;
        [eassumption | assumption | site | assumption | site] ]
  | cbn; rewrite <- ?app_assoc; reflexivity ].

Lemma syncPort_run (fs : FS) (c : QBittorrentClient) (portFile : string)
    (w w' : World) (exit : Exit) :
  syncPort remote decodePrefs fs c portFile w = (exit, w') ->
  exists gets sets,
    sent w' = (sent w ++ gets ++ sets)%list /\
    Cycle remote decodePrefs c fs portFile (lastPort w) (sent w)
      exit (lastPort w') gets sets.
Proof.
  unfold syncPort, body, andThen, call, return_, skip, pure, log_Println,
    log_Printf, loadLastPort, assignLastPort.
  destruct (readPortFile fs portFile) as [filePort [err|]] eqn:Hread.
  { cbn. intros H; injection H as <- <-.
    exists [], []. cbn. rewrite app_nil_r. split; [reflexivity|].
    eapply Cycle_read_failed; eassumption. }
  destruct (filePort =? lastPort w) eqn:Hsame.
  { cbn. intros H; injection H as <- <-.
    exists [], []. cbn. rewrite app_nil_r. split; [reflexivity|].
    apply Z.eqb_eq in Hsame.
    eapply Cycle_unchanged; eassumption. }
  apply Z.eqb_neq in Hsame.
  repeat step; leaf.
Qed.

End Sync.

(** ** [readPortFile] *)

Lemma readPortFile_valid (fs : FS) (filename : string) (p : Z) :
  readPortFile fs filename = (p, None) -> validPort p.
Proof.
  unfold readPortFile, validPort.
  destruct (fs filename) as [data [err|]]; [discriminate|].
  destruct (strconv.Atoi _) as [port [err|]]; [discriminate|].
  destruct ((port <? 1) || (65535 <? port)) eqn:Hr; [discriminate|].
  intros H; injection H as <-. zb Hr. lia.
Qed.

Lemma readPortFile_result (fs : FS) (filename : string) :
  (exists p, readPortFile fs filename = (p, None)) \/
  (exists err, readPortFile fs filename = (0, Some err)).
Proof.
  unfold readPortFile.
  destruct (fs filename) as [data [err|]]; [eauto|].
  destruct (strconv.Atoi _) as [port [err|]]; [eauto|].
  destruct ((port <? 1) || (65535 <? port)); eauto.
Qed.

Lemma readPortFile_ok_iff (fs : FS) (filename data : string) (p : Z) :
  fs filename = (data, None) ->
  readPortFile fs filename = (p, None) <->
  decimalInteger (strings.TrimSpace data) = Some p /\ validPort p.
Proof.
  intros Hfs. unfold readPortFile, validPort. rewrite Hfs.
  pose proof (Atoi_spec (strings.TrimSpace data)) as HA.
  change (2 ^ 63) with 9223372036854775808 in HA.
  destruct (decimalInteger (strings.TrimSpace data)) as [v|].
  - destruct ((- (9223372036854775808) <=? v) && (v <? 9223372036854775808))
      eqn:Hfit; zb Hfit.
    + rewrite HA.
      destruct ((v <? 1) || (65535 <? v)) eqn:Hr; zb Hr; split.
      * discriminate.
      * intros [Hv Hp]. injection Hv as ->. lia.
      * intros H. injection H as <-. split; [reflexivity | lia].
      * intros [Hv _]. now injection Hv as ->.
    + destruct HA as [u ->]. split; [discriminate|].
      intros [Hv Hp]. injection Hv as ->. lia.
  - destruct HA as (u & e & ->). split; [discriminate|].
    intros [Hv _]. discriminate.
Qed.

Lemma digitsValue_at (s : string) :
  forall n v k,
    digitsValue n s = Some v -> (k < len s)%nat -> 48 <= at_ s k <= 57.
Proof.
  induction s as [|c r IH]; intros n v k H Hk; simpl in Hk; [lia|].
  cbn [digitsValue] in H.
  destruct (isDigit c) eqn:Hd; [|discriminate].
  destruct k as [|k].
  - rewrite at_0_cons. now apply isDigit_range.
  - change (at_ (String c r) (S k)) with (at_ r k).
    apply (IH _ _ _ H). lia.
Qed.

Lemma unsignedDecimal_decimalInteger (s : string) (p : Z) :
  unsignedDecimal s = Some p -> decimalInteger s = Some p.
Proof.
  destruct s as [|c r]; [discriminate|].
  intros H. cbn [decimalInteger].
  assert (Hc : 48 <= byte c <= 57).
  { rewrite <- at_0_cons with (r := r).
    apply (digitsValue_at (String c r) 0 p 0%nat H). simpl. lia. }
  destruct (Z.eqb_spec (byte c) 43); [lia|].
  destruct (Z.eqb_spec (byte c) 45); [lia|].
  exact H.
Qed.

(** Digits between ASCII spaces are trimmed to the digits. *)
Lemma TrimSpace_padded_digits (ws1 digits ws2 : string) (p : Z) :
  allAsciiSpace ws1 = true ->
  allAsciiSpace ws2 = true ->
  unsignedDecimal digits = Some p ->
  strings.TrimSpace (ws1 ++ digits ++ ws2) = digits.
Proof.
  intros Hws1 Hws2 Hp.
  assert (Hne : (1 <= len digits)%nat)
    by (destruct digits; [discriminate | simpl; lia]).
  assert (Hat : forall k, (k < len digits)%nat -> 48 <= at_ digits k <= 57).
  { intros k Hk. destruct digits as [|c r]; [discriminate|].
    exact (digitsValue_at _ _ _ _ Hp Hk). }
  assert (Hns : forall b, 48 <= b <= 57 ->
                b < utf8.RuneSelf /\ strings.asciiSpace b = false).
  { intros b Hb. unfold utf8.RuneSelf, strings.asciiSpace. split; [lia|].
    repeat match goal with
      | |- context [b =? ?k] => destruct (Z.eqb_spec b k); [lia|]
      end.
    reflexivity. }
  destruct (Hns _ (Hat 0%nat ltac:(lia))) as [H1 H2].
  destruct (Hns _ (Hat (len digits - 1)%nat ltac:(lia))) as [H3 H4].
  now apply TrimSpace_ascii_padding.
Qed.

(** C6.  On a port file that can be read, [readPortFile] returns the port
    [p] without error exactly when the contents, trimmed of white space,
    are a decimal integer (an optional sign and digits) of value [p] in
    [1, 65535]; on every other contents it returns zero and an error.
    In particular digits of a value in [1, 65535], alone or between
    spaces, tabs and line ends, give that value. *)
Theorem readPortFile_decimal_port (fs : FS) (filename data : string) :
  fs filename = (data, None) ->
  (forall p,
     readPortFile fs filename = (p, None) <->
     decimalInteger (strings.TrimSpace data) = Some p /\ 1 <= p <= 65535)
  /\
  ((~ exists p, decimalInteger (strings.TrimSpace data) = Some p
                /\ 1 <= p <= 65535) ->
   exists err, readPortFile fs filename = (0, Some err))
  /\
  (forall ws1 digits ws2 p,
     data = ws1 ++ digits ++ ws2 ->
     allAsciiSpace ws1 = true ->
     allAsciiSpace ws2 = true ->
     unsignedDecimal digits = Some p ->
     1 <= p <= 65535 ->
     readPortFile fs filename = (p, None)).
Proof.
  intros Hfs. split; [|split].
  - intros p. apply (readPortFile_ok_iff fs filename data p Hfs).
  - intros Hnot.
    destruct (readPortFile_result fs filename) as [[p Hp] | Herr];
      [|exact Herr].
    exfalso. apply Hnot. exists p.
    now apply (readPortFile_ok_iff fs filename data p Hfs).
  - intros ws1 digits ws2 p -> Hws1 Hws2 Hp Hrange.
    apply (readPortFile_ok_iff fs filename _ p Hfs).
    rewrite (TrimSpace_padded_digits ws1 digits ws2 p Hws1 Hws2 Hp).
    split; [now apply unsignedDecimal_decimalInteger | exact Hrange].
Qed.

Lemma readPortFile_decimal_port_witness :
  readPortFile (fsWith ("  30100" ++ newline)) examplePortFile = (30100, None)
  /\ (exists err, readPortFile (fsWith "abc") examplePortFile = (0, Some err))
  /\ (exists err, readPortFile (fsWith "65536") examplePortFile
                  = (0, Some err)).
Proof.
  split; [|split].
  - apply (proj2 (proj2 (readPortFile_decimal_port
                           (fsWith ("  30100" ++ newline)) examplePortFile
                           ("  30100" ++ newline) eq_refl))
             "  " "30100" newline 30100);
      try reflexivity; lia.
  - apply (proj1 (proj2 (readPortFile_decimal_port
                           (fsWith "abc") examplePortFile "abc" eq_refl))).
    intros [p [H _]]. vm_compute in H. discriminate.
  - apply (proj1 (proj2 (readPortFile_decimal_port
                           (fsWith "65536") examplePortFile "65536" eq_refl))).
    intros [p [H Hp]]. vm_compute in H. injection H as <-. lia.
Defined.

(** ** The session client *)

(** C8.  [Login] returns [nil] exactly when the service answers the login
    request with status 200 and a body that, trimmed of white space, is
    the text [Ok.]; every other answer with a status and a body makes it
    return a "login failed" error, and a failure of the transport a
    "login request failed" error. *)
Theorem Login_succeeds_iff (remote : Remote) (c : QBittorrentClient)
    (w : World) :
  (fst (Login remote c w) = None <->
   exists body_,
     remote (sent w) (loginRequest c) = Response 200 body_ /\
     strings.TrimSpace body_ = "Ok.")
  /\
  (forall status body_,
     remote (sent w) (loginRequest c) = Response status body_ ->
     ~ (status = 200 /\ strings.TrimSpace body_ = "Ok.") ->
     fst (Login remote c w) =
       Some ("login failed: status=" ++ fmt.d status ++ ", body="
               ++ strings.TrimSpace body_))
  /\
  (forall msg,
     remote (sent w) (loginRequest c) = TransportError msg ->
     fst (Login remote c w) = Some ("login request failed: " ++ msg)).
Proof.
  rewrite Login_eq. cbn [fst]. rewrite loginResult_eq.
  unfold StatusOK.
  destruct (remote (sent w) (loginRequest c)) as [msg|status body_].
  - split; [split|split].
    + discriminate.
    + intros (b & H & _). discriminate.
    + intros ? ? H. discriminate.
    + intros ? H. now injection H as <-.
  - destruct (Z.eqb_spec status 200) as [Hs|Hs];
      destruct (String.eqb_spec (strings.TrimSpace body_) "Ok.") as [Hb|Hb];
      cbn [negb orb].
    + split; [split|split].
      * intros _. exists body_. subst. now split.
      * reflexivity.
      * intros s b H Hn. injection H as <- <-. exfalso. now apply Hn.
      * discriminate.
    + split; [split|split].
      * discriminate.
      * intros (b & H & Hok). injection H as _ <-. contradiction.
      * intros s b H _. now injection H as <- <-.
      * discriminate.
    + split; [split|split].
      * discriminate.
      * intros (b & H & Hok). injection H as Hst _. contradiction.
      * intros s b H _. now injection H as <- <-.
      * discriminate.
    + split; [split|split].
      * discriminate.
      * intros (b & H & Hok). injection H as Hst _. contradiction.
      * intros s b H _. now injection H as <- <-.
      * discriminate.
Qed.

(** C7.  [GetListeningPort] and [SetListeningPort] return the error
    "authentication expired" exactly when the service answers their
    request with status 403 (Forbidden), and for no other status and no
    failure of the transport. *)
Theorem expired_iff_forbidden (remote : Remote) (decodePrefs : Decoder)
    (c : QBittorrentClient) (w : World) :
  (snd (fst (GetListeningPort remote decodePrefs c w))
     = Some "authentication expired" <->
   exists body_, remote (sent w) (getRequest c) = Response 403 body_)
  /\
  (forall port,
     fst (SetListeningPort remote c port w) = Some "authentication expired" <->
     exists body_, remote (sent w) (setRequest c port) = Response 403 body_).
Proof.
  split; [|intros port].
  - rewrite GetListeningPort_eq. cbn [fst]. rewrite getResult_eq.
    unfold StatusForbidden, StatusOK.
    destruct (remote (sent w) (getRequest c)) as [msg|status body_].
    + split; [discriminate | intros [b H]; discriminate].
    + destruct (status =? 403) eqn:Hs.
      * apply Z.eqb_eq in Hs. subst. split; eauto.
      * apply Z.eqb_neq in Hs.
        assert (Hno : ~ exists b, Response status body_ = Response 403 b)
          by (intros [b H]; injection H as H _; contradiction).
        destruct (negb (status =? 200));
          [|destruct (decodePrefs body_) as [msg|[port|]]];
          (split; [discriminate | intros H; contradiction]).
  - rewrite SetListeningPort_eq. cbn [fst]. rewrite setResult_eq.
    unfold StatusForbidden, StatusOK.
    destruct (remote (sent w) (setRequest c port)) as [msg|status body_].
    + split; [discriminate | intros [b H]; discriminate].
    + destruct (status =? 403) eqn:Hs.
      * apply Z.eqb_eq in Hs. subst. split; eauto.
      * apply Z.eqb_neq in Hs.
        assert (Hno : ~ exists b, Response status body_ = Response 403 b)
          by (intros [b H]; injection H as H _; contradiction).
        destruct (negb (status =? 200));
          (split; [discriminate | intros H; contradiction]).
Qed.

(** ** The reconciliation cycle *)

Lemma get_not_login (c : QBittorrentClient) : getRequest c <> loginRequest c.
Proof. discriminate. Qed.

Lemma set_not_login (c : QBittorrentClient) (port : Z) :
  setRequest c port <> loginRequest c.
Proof. unfold setRequest, loginRequest. intros H. congruence. Qed.

Lemma logins_nil (c : QBittorrentClient) : logins c [] = 0%nat.
Proof. reflexivity. Qed.

Lemma logins_login (c : QBittorrentClient) (tr : list Request) :
  logins c (loginRequest c :: tr) = S (logins c tr).
Proof. unfold logins. now apply count_occ_cons_eq. Qed.

Lemma logins_get (c : QBittorrentClient) (tr : list Request) :
  logins c (getRequest c :: tr) = logins c tr.
Proof. unfold logins. apply count_occ_cons_neq, get_not_login. Qed.

Lemma logins_set (c : QBittorrentClient) (port : Z) (tr : list Request) :
  logins c (setRequest c port :: tr) = logins c tr.
Proof. unfold logins. apply count_occ_cons_neq, set_not_login. Qed.

Ltac count_logins :=
  repeat first [ rewrite logins_get | rewrite logins_set
               | rewrite logins_login | rewrite logins_nil ].

Ltac invert_sites :=
  repeat match goal with
    | H : GetSite _ _ _ _ _ _ |- _ => inversion H; subst; clear H
    | H : SetSite _ _ _ _ _ _ |- _ => inversion H; subst; clear H
    end.

(** C1.  The requests of a cycle are those of the GetPort site followed
    by those of the SetPort site.  Each site sends its request, at most
    one login after it, and at most one retry of its request after the
    login.  When the retried [GetListeningPort] fails, the cycle sends
    nothing more and returns without writing [lastPort]; when the retried
    [SetListeningPort] fails, the cycle returns without writing
    [lastPort], the retry being its last request. *)
Theorem reauth_once_per_site (remote : Remote) (decodePrefs : Decoder)
    (fs : FS) (c : QBittorrentClient) (portFile : string)
    (w w' : World) (exit : Exit) :
  syncPort remote decodePrefs fs c portFile w = (exit, w') ->
  exists gets sets port,
    sent w' = (sent w ++ gets ++ sets)%list /\
    In gets [ []; [getRequest c]; [getRequest c; loginRequest c];
              [getRequest c; loginRequest c; getRequest c] ] /\
    In sets [ []; [setRequest c port]; [setRequest c port; loginRequest c];
              [setRequest c port; loginRequest c; setRequest c port] ] /\
    (logins c gets <= 1)%nat /\
    (logins c sets <= 1)%nat /\
    (forall y err,
       gets = [getRequest c; loginRequest c; getRequest c] ->
       getResult remote decodePrefs c
         (sent w ++ [getRequest c; loginRequest c]) = (y, Some err) ->
       sets = [] /\ exit = GetRetryFailed /\ lastPort w' = lastPort w) /\
    (forall err,
       sets = [setRequest c port; loginRequest c; setRequest c port] ->
       setResult remote c port
         (sent w ++ gets ++ [setRequest c port; loginRequest c]) = Some err ->
       exit = SetRetryFailed /\ lastPort w' = lastPort w).
Proof.
  intros Hrun.
  destruct (syncPort_run _ _ _ _ _ _ _ _ Hrun) as (gets & sets & Hsent & Hc).
  exists gets, sets.
  inversion Hc; subst;
    match goal with
    | H : readPortFile _ _ = (?p, None) |- _ => exists p
    | _ => exists 0
    end;
    invert_sites; rewrite <- ?app_assoc in *; cbn [app] in *;
    (refine (conj _ (conj _ (conj _ (conj _ (conj _ (conj _ _))))));
     [ assumption
     | cbn; auto 6
     | cbn; auto 6
     | count_logins; lia
     | count_logins; lia
     | intros ? ? Hg Hretry; try discriminate Hg;
       repeat split; congruence
     | intros ? Hs Hretry; try discriminate Hs;
       repeat split; congruence ]).
Qed.

Lemma reauth_once_per_site_witness :
  exampleCycle (expiringRemote 6881) (fsWith "30100") (after [])
    = (Completed,
       snd (exampleCycle (expiringRemote 6881) (fsWith "30100") (after [])))
  /\
  exists gets sets port,
    sent (snd (exampleCycle (expiringRemote 6881) (fsWith "30100") (after [])))
      = (sent (after []) ++ gets ++ sets)%list /\
    In gets [ []; [getRequest exampleClient];
              [getRequest exampleClient; loginRequest exampleClient];
              [getRequest exampleClient; loginRequest exampleClient;
               getRequest exampleClient] ] /\
    In sets [ []; [setRequest exampleClient port];
              [setRequest exampleClient port; loginRequest exampleClient];
              [setRequest exampleClient port; loginRequest exampleClient;
               setRequest exampleClient port] ] /\
    (logins exampleClient gets <= 1)%nat /\
    (logins exampleClient sets <= 1)%nat.
Proof.
  split; [vm_compute; reflexivity|].
  destruct (reauth_once_per_site (expiringRemote 6881) exampleDecoder
              (fsWith "30100") exampleClient examplePortFile (after [])
              (snd (exampleCycle (expiringRemote 6881) (fsWith "30100")
                      (after [])))
              Completed)
    as (gets & sets & port & H1 & H2 & H3 & H4 & H5 & _).
  - vm_compute; reflexivity.
  - exists gets, sets, port. repeat split; assumption.
Defined.

(** The two sites are functions of the requests already sent. *)

Lemma GetSite_det (remote : Remote) (decodePrefs : Decoder)
    (c : QBittorrentClient) (h : list Request)
    (tr1 tr2 : list Request) (r1 r2 : Exit + Z) :
  GetSite remote decodePrefs c h tr1 r1 ->
  GetSite remote decodePrefs c h tr2 r2 ->
  tr1 = tr2 /\ r1 = r2.
Proof.
  intros H1 H2.
  inversion H1; subst; inversion H2; subst;
    rewrite <- ?app_assoc in *; cbn [app] in *;
    first [ split; congruence | exfalso; congruence ].
Qed.

Lemma SetSite_det (remote : Remote) (c : QBittorrentClient) (port : Z)
    (h : list Request) (tr1 tr2 : list Request) (r1 r2 : option Exit) :
  SetSite remote c port h tr1 r1 ->
  SetSite remote c port h tr2 r2 ->
  tr1 = tr2 /\ r1 = r2.
Proof.
  intros H1 H2.
  inversion H1; subst; inversion H2; subst;
    rewrite <- ?app_assoc in *; cbn [app] in *;
    first [ split; congruence | exfalso; congruence ].
Qed.

(** A run is determined by its start. *)
Lemma Cycle_det (remote : Remote) (decodePrefs : Decoder)
    (c : QBittorrentClient) (fs : FS) (portFile : string) (last : Z)
    (h : list Request) (e1 e2 : Exit) (l1 l2 : Z)
    (g1 g2 s1 s2 : list Request) :
  Cycle remote decodePrefs c fs portFile last h e1 l1 g1 s1 ->
  Cycle remote decodePrefs c fs portFile last h e2 l2 g2 s2 ->
  e1 = e2 /\ l1 = l2 /\ g1 = g2 /\ s1 = s2.
Proof.
  intros H1 H2.
  inversion H1; subst; inversion H2; subst;
    repeat match goal with
      | Ha : readPortFile ?f ?n = _, Hb : readPortFile ?f ?n = _ |- _ =>
          rewrite Ha in Hb; injection Hb as ?; subst
      end;
    try congruence;
    repeat match goal with
      | Ha : GetSite _ _ _ ?h _ _, Hb : GetSite _ _ _ ?h _ _ |- _ =>
          destruct (GetSite_det _ _ _ _ _ _ _ _ Ha Hb) as [? ?];
          clear Hb; subst
      | Ha : SetSite _ _ ?p ?h _ _, Hb : SetSite _ _ ?p ?h _ _ |- _ =>
          destruct (SetSite_det _ _ _ _ _ _ _ _ Ha Hb) as [? ?];
          clear Hb; subst
      end;
    try congruence;
    repeat split; congruence.
Qed.

(** What a run leaves behind, read off the result of [syncPort]. *)
Lemma syncPort_follows (remote : Remote) (decodePrefs : Decoder)
    (fs : FS) (c : QBittorrentClient) (portFile : string) (w : World)
    (exit : Exit) (last' : Z) (gets sets : list Request) :
  Cycle remote decodePrefs c fs portFile (lastPort w) (sent w)
    exit last' gets sets ->
  fst (syncPort remote decodePrefs fs c portFile w) = exit /\
  lastPort (snd (syncPort remote decodePrefs fs c portFile w)) = last' /\
  sent (snd (syncPort remote decodePrefs fs c portFile w))
    = (sent w ++ gets ++ sets)%list.
Proof.
  intros Hc.
  destruct (syncPort remote decodePrefs fs c portFile w) as [e w'] eqn:Hrun.
  destruct (syncPort_run _ _ _ _ _ _ _ _ Hrun) as (g & s & Hsent & Hc').
  destruct (Cycle_det _ _ _ _ _ _ _ _ _ _ _ _ _ _ _ Hc' Hc)
    as (He & Hl & Hg & Hs).
  cbn [fst snd]. subst. auto.
Qed.

(** A cycle that runs to its end leaves the port of the file in
    [lastPort]. *)
Lemma completed_stores_filePort (remote : Remote) (decodePrefs : Decoder)
    (fs : FS) (c : QBittorrentClient) (portFile : string) (w w' : World) :
  syncPort remote decodePrefs fs c portFile w = (Completed, w') ->
  exists filePort,
    readPortFile fs portFile = (filePort, None) /\ lastPort w' = filePort.
Proof.
  intros Hrun.
  destruct (syncPort_run _ _ _ _ _ _ _ _ Hrun) as (gets & sets & Hsent & Hc).
  inversion Hc; subst; try solve [invert_sites]; eauto.
Qed.

(** C2.  A cycle that returns early, through any of its return
    statements (the port file could not be read or parsed, the port had
    not changed, [GetListeningPort], the login or the retried
    [GetListeningPort] failed, [SetListeningPort], the login or the
    retried [SetListeningPort] failed), leaves [lastPort] as it was.
    [lastPort] is written only by a cycle that runs to its end: the file
    gave a port, the GetPort site gave the current port of the service,
    and either that port was the file's or the SetPort site succeeded;
    it then holds the port of the file. *)
Theorem abort_keeps_lastPort (remote : Remote) (decodePrefs : Decoder)
    (fs : FS) (c : QBittorrentClient) (portFile : string)
    (w w' : World) (exit : Exit) :
  syncPort remote decodePrefs fs c portFile w = (exit, w') ->
  (exit <> Completed -> lastPort w' = lastPort w) /\
  (exit = Completed ->
   exists filePort gets currentPort,
     readPortFile fs portFile = (filePort, None) /\
     lastPort w' = filePort /\
     GetSite remote decodePrefs c (sent w) gets (inr currentPort) /\
     (currentPort = filePort \/
      exists sets,
        SetSite remote c filePort (sent w ++ gets) sets None)) /\
  (lastPort w' <> lastPort w -> exit = Completed).
Proof.
  intros Hrun.
  destruct (syncPort_run _ _ _ _ _ _ _ _ Hrun) as (gets & sets & Hsent & Hc).
  assert (Hearly : exit <> Completed -> lastPort w' = lastPort w).
  { inversion Hc; subst; try reflexivity; try congruence;
      invert_sites; congruence. }
  split; [exact Hearly|]. split.
  - intros ->.
    inversion Hc; subst; try solve [invert_sites]; eauto 10.
  - intros Hchanged.
    destruct exit; try reflexivity; exfalso; apply Hchanged, Hearly;
      discriminate.
Qed.

Lemma abort_keeps_lastPort_witness :
  exampleCycle (constRemote 403 "") (fsWith "30100") startWorld
    = (GetReauthFailed,
       snd (exampleCycle (constRemote 403 "") (fsWith "30100") startWorld))
  /\
  lastPort (snd (exampleCycle (constRemote 403 "") (fsWith "30100")
                   startWorld))
    = lastPort startWorld.
Proof.
  split; [vm_compute; reflexivity|].
  apply (proj1 (abort_keeps_lastPort (constRemote 403 "") exampleDecoder
                  (fsWith "30100") exampleClient examplePortFile startWorld
                  (snd (exampleCycle (constRemote 403 "") (fsWith "30100")
                          startWorld))
                  GetReauthFailed
                  ltac:(vm_compute; reflexivity))).
  discriminate.
Defined.

(** C3.  The port file holds 30100, [lastPort] is zero, the service
    answers the preferences request with status 200 and preferences
    whose [listen_port] is 6881, and the request to set the port to 30100
    with status 200.  Then the cycle sends exactly these two requests, in
    this order, runs to its end, and [lastPort] is 30100. *)
Theorem first_sync_scenario (remote : Remote) (decodePrefs : Decoder)
    (fs : FS) (c : QBittorrentClient) (portFile : string) (w : World)
    (data prefs body_ : string) :
  fs portFile = (data, None) ->
  strings.TrimSpace data = "30100" ->
  lastPort w = 0 ->
  remote (sent w) (getRequest c) = Response 200 prefs ->
  decodePrefs prefs = Decoded (Some 6881) ->
  remote (sent w ++ [getRequest c])%list (setRequest c 30100)
    = Response 200 body_ ->
  fst (syncPort remote decodePrefs fs c portFile w) = Completed /\
  sent (snd (syncPort remote decodePrefs fs c portFile w))
    = (sent w ++ [getRequest c; setRequest c 30100])%list /\
  lastPort (snd (syncPort remote decodePrefs fs c portFile w)) = 30100.
Proof.
  intros Hfs Htrim Hlast Hget Hprefs Hset.
  assert (Hread : readPortFile fs portFile = (30100, None)).
  { unfold readPortFile. rewrite Hfs, Htrim. reflexivity. }
  assert (HG : getResult remote decodePrefs c (sent w) = (6881, None)).
  { rewrite getResult_eq, Hget. cbn. now rewrite Hprefs. }
  assert (HS : setResult remote c 30100 (sent w ++ [getRequest c])%list
               = None).
  { rewrite setResult_eq, Hset. reflexivity. }
  assert (Hc : Cycle remote decodePrefs c fs portFile (lastPort w) (sent w)
                 Completed 30100 [getRequest c] [setRequest c 30100]).
  { eapply Cycle_updated.
    - exact Hread.
    - rewrite Hlast. discriminate.
    - apply Get_ok. exact HG.
    - discriminate.
    - apply Set_ok. exact HS. }
  destruct (syncPort_follows _ _ _ _ _ _ _ _ _ _ Hc) as (He & Hl & Hs).
  auto.
Qed.

Lemma first_sync_scenario_witness :
  fst (exampleCycle (steadyRemote 6881) (fsWith ("30100" ++ newline))
         startWorld) = Completed /\
  sent (snd (exampleCycle (steadyRemote 6881) (fsWith ("30100" ++ newline))
               startWorld))
    = (sent startWorld
       ++ [getRequest exampleClient; setRequest exampleClient 30100])%list /\
  lastPort (snd (exampleCycle (steadyRemote 6881)
                   (fsWith ("30100" ++ newline)) startWorld)) = 30100.
Proof.
  apply (first_sync_scenario (steadyRemote 6881) exampleDecoder
           (fsWith ("30100" ++ newline)) exampleClient examplePortFile
           startWorld ("30100" ++ newline) (marshalPrefs 6881) "Ok.");
    reflexivity.
Defined.

(** A cycle on a file whose port is [lastPort] sends nothing and changes
    neither [lastPort] nor the requests sent. *)
Lemma unchanged_cycle (remote : Remote) (decodePrefs : Decoder)
    (fs : FS) (c : QBittorrentClient) (portFile : string) (w : World) :
  readPortFile fs portFile = (lastPort w, None) ->
  fst (syncPort remote decodePrefs fs c portFile w) = Unchanged /\
  lastPort (snd (syncPort remote decodePrefs fs c portFile w)) = lastPort w /\
  sent (snd (syncPort remote decodePrefs fs c portFile w)) = sent w.
Proof.
  intros Hread.
  assert (Hc : Cycle remote decodePrefs c fs portFile (lastPort w) (sent w)
                 Unchanged (lastPort w) [] [])
    by (eapply Cycle_unchanged; [exact Hread | reflexivity]).
  destruct (syncPort_follows _ _ _ _ _ _ _ _ _ _ Hc) as (He & Hl & Hs).
  cbn [app] in Hs. rewrite app_nil_r in Hs. auto.
Qed.

(** C4.  A cycle in which the port read from the file equals [lastPort]
    returns at the comparison: it sends no request at all and leaves
    [lastPort] as it was.  Hence, after a cycle that ran to its end, any
    number of further cycles on files that read the same send nothing. *)
Theorem unchanged_port_no_http (remote : Remote) (decodePrefs : Decoder)
    (c : QBittorrentClient) (portFile : string) :
  (forall fs w,
     readPortFile fs portFile = (lastPort w, None) ->
     fst (syncPort remote decodePrefs fs c portFile w) = Unchanged /\
     sent (snd (syncPort remote decodePrefs fs c portFile w)) = sent w /\
     lastPort (snd (syncPort remote decodePrefs fs c portFile w))
       = lastPort w)
  /\
  (forall fs w w1 ticks,
     syncPort remote decodePrefs fs c portFile w = (Completed, w1) ->
     Forall (fun fs' => readPortFile fs' portFile = readPortFile fs portFile)
            ticks ->
     sent (snd (syncLoop remote decodePrefs c portFile ticks w1)) = sent w1 /\
     lastPort (snd (syncLoop remote decodePrefs c portFile ticks w1))
       = lastPort w1).
Proof.
  split.
  - intros fs w Hread.
    destruct (unchanged_cycle remote decodePrefs fs c portFile w Hread)
      as (He & Hl & Hs).
    auto.
  - intros fs w w1 ticks Hrun Hticks.
    assert (Hread : readPortFile fs portFile = (lastPort w1, None)).
    { destruct (completed_stores_filePort remote decodePrefs fs c portFile
                  w w1 Hrun) as (p & Hp & <-).
      exact Hp. }
    clear Hrun. revert w1 Hread.
    induction Hticks as [|fs' ticks Hfs' _ IH]; intros w1 Hread.
    + cbn. auto.
    + cbn [syncLoop]. rewrite Hread in Hfs'.
      destruct (unchanged_cycle remote decodePrefs fs' c portFile w1 Hfs')
        as (_ & Hl & Hs).
      destruct (syncPort remote decodePrefs fs' c portFile w1) as [e w2].
      cbn [snd] in Hl, Hs.
      rewrite <- Hl in Hread.
      destruct (IH w2 Hread) as [IHs IHl].
      split; congruence.
Qed.

Lemma unchanged_port_no_http_witness :
  exampleCycle (steadyRemote 6881) (fsWith "30100") startWorld
    = (Completed,
       snd (exampleCycle (steadyRemote 6881) (fsWith "30100") startWorld))
  /\
  sent (snd (syncLoop (steadyRemote 6881) exampleDecoder exampleClient
               examplePortFile
               [fsWith "30100"; fsWith ("30100" ++ newline); fsWith "+30100"]
               (snd (exampleCycle (steadyRemote 6881) (fsWith "30100")
                       startWorld))))
    = sent (snd (exampleCycle (steadyRemote 6881) (fsWith "30100")
                   startWorld)).
Proof.
  split; [vm_compute; reflexivity|].
  apply (proj2 (unchanged_port_no_http (steadyRemote 6881) exampleDecoder
                  exampleClient examplePortFile)
           (fsWith "30100") startWorld).
  - vm_compute; reflexivity.
  - repeat constructor.
Defined.

(** C5.  The file port differs from [lastPort] and the GetPort site, at
    its first call or at its retry after a login, gives a current port
    equal to the file port.  Then the cycle sends the requests of the
    GetPort site and nothing else, so no request to set the port, it runs
    to its end, and [lastPort] becomes the file port. *)
Theorem satisfied_without_set (remote : Remote) (decodePrefs : Decoder)
    (fs : FS) (c : QBittorrentClient) (portFile : string) (w : World)
    (filePort : Z) (gets : list Request) :
  readPortFile fs portFile = (filePort, None) ->
  filePort <> lastPort w ->
  GetSite remote decodePrefs c (sent w) gets (inr filePort) ->
  fst (syncPort remote decodePrefs fs c portFile w) = Completed /\
  sent (snd (syncPort remote decodePrefs fs c portFile w))
    = (sent w ++ gets)%list /\
  (forall port, ~ In (setRequest c port) gets) /\
  lastPort (snd (syncPort remote decodePrefs fs c portFile w)) = filePort.
Proof.
  intros Hread Hdiff Hget.
  assert (Hc : Cycle remote decodePrefs c fs portFile (lastPort w) (sent w)
                 Completed filePort gets [])
    by (eapply Cycle_satisfied; eassumption).
  destruct (syncPort_follows _ _ _ _ _ _ _ _ _ _ Hc) as (He & Hl & Hs).
  rewrite app_nil_r in Hs.
  repeat split; try assumption.
  intros port Hin.
  assert (Hg : getRequest c <> setRequest c port) by discriminate.
  assert (Hl' : loginRequest c <> setRequest c port)
    by (intros E; symmetry in E; exact (set_not_login c port E)).
  inversion Hget; subst; cbn [In] in Hin; intuition.
Qed.

Lemma satisfied_without_set_witness :
  fst (exampleCycle (expiringRemote 30100) (fsWith "30100") (after []))
    = Completed /\
  sent (snd (exampleCycle (expiringRemote 30100) (fsWith "30100") (after [])))
    = [getRequest exampleClient; loginRequest exampleClient;
       getRequest exampleClient] /\
  lastPort (snd (exampleCycle (expiringRemote 30100) (fsWith "30100")
                   (after []))) = 30100.
Proof.
  destruct (satisfied_without_set (expiringRemote 30100) exampleDecoder
              (fsWith "30100") exampleClient examplePortFile (after [])
              30100
              [getRequest exampleClient; loginRequest exampleClient;
               getRequest exampleClient])
    as (He & Hs & _ & Hl).
  - reflexivity.
  - discriminate.
  - eapply Get_retry_ok; reflexivity.
  - repeat split; assumption.
Defined.

(** ** The Last-Known Port over the life of the loop *)

Lemma syncPort_keeps_range (remote : Remote) (decodePrefs : Decoder)
    (fs : FS) (c : QBittorrentClient) (portFile : string) (w : World) :
  lastPort w = 0 \/ validPort (lastPort w) ->
  lastPort (snd (syncPort remote decodePrefs fs c portFile w)) = 0 \/
  validPort (lastPort (snd (syncPort remote decodePrefs fs c portFile w))).
Proof.
  intros Hinv.
  destruct (syncPort remote decodePrefs fs c portFile w) as [exit w'] eqn:Hrun.
  destruct (syncPort_run _ _ _ _ _ _ _ _ Hrun) as (gets & sets & _ & Hc).
  cbn [snd].
  inversion Hc; subst;
    first [ exact Hinv | right; eapply readPortFile_valid; eassumption ].
Qed.

Lemma syncLoop_keeps_range (remote : Remote) (decodePrefs : Decoder)
    (c : QBittorrentClient) (portFile : string) (ticks : list FS) :
  forall w,
    lastPort w = 0 \/ validPort (lastPort w) ->
    lastPort (snd (syncLoop remote decodePrefs c portFile ticks w)) = 0 \/
    validPort (lastPort (snd (syncLoop remote decodePrefs c portFile ticks w))).
Proof.
  induction ticks as [|fs ticks IH]; intros w Hinv; [exact Hinv|].
  cbn [syncLoop].
  pose proof (syncPort_keeps_range remote decodePrefs fs c portFile w Hinv)
    as Hstep.
  destruct (syncPort remote decodePrefs fs c portFile w) as [exit w'].
  apply IH. exact Hstep.
Qed.

(** C9.  From the start of the loop, where [lastPort] is zero, and after
    any number of cycles, [lastPort] is zero or a port in [1, 65535]: a
    cycle keeps this, since it writes only a port that [readPortFile]
    returned.  So a cycle that starts with [lastPort] zero and reads a
    port from the file does not return at the comparison: it goes on to
    ask the service for its port. *)
Theorem lastPort_zero_or_valid (remote : Remote) (decodePrefs : Decoder)
    (c : QBittorrentClient) (portFile : string) :
  (forall now ticks w,
     lastPort (snd (mainLoop remote decodePrefs c portFile now ticks w)) = 0 \/
     1 <= lastPort (snd (mainLoop remote decodePrefs c portFile now ticks w))
       <= 65535)
  /\
  (forall fs w,
     lastPort w = 0 \/ 1 <= lastPort w <= 65535 ->
     lastPort (snd (syncPort remote decodePrefs fs c portFile w)) = 0 \/
     1 <= lastPort (snd (syncPort remote decodePrefs fs c portFile w))
       <= 65535)
  /\
  (forall fs w filePort,
     lastPort w = 0 ->
     readPortFile fs portFile = (filePort, None) ->
     fst (syncPort remote decodePrefs fs c portFile w) <> Unchanged /\
     exists rest,
       sent (snd (syncPort remote decodePrefs fs c portFile w))
         = (sent w ++ getRequest c :: rest)%list).
Proof.
  split; [|split].
  - intros now ticks w. unfold mainLoop.
    apply (syncLoop_keeps_range remote decodePrefs c portFile (now :: ticks)).
    left. reflexivity.
  - intros fs w. apply syncPort_keeps_range.
  - intros fs w filePort Hzero Hread.
    pose proof (readPortFile_valid _ _ _ Hread) as Hvalid.
    unfold validPort in Hvalid.
    destruct (syncPort remote decodePrefs fs c portFile w) as [exit w']
      eqn:Hrun.
    destruct (syncPort_run _ _ _ _ _ _ _ _ Hrun) as (gets & sets & Hsent & Hc).
    cbn [fst snd]. rewrite Hsent.
    assert (Hne : filePort <> lastPort w) by lia.
    inversion Hc; subst; try (exfalso; congruence);
      (split; [solve [discriminate | invert_sites; discriminate]|]);
      invert_sites; cbn [app]; eauto.
Qed.

Lemma lastPort_zero_or_valid_witness :
  lastPort startWorld = 0 /\
  readPortFile (fsWith "30100") examplePortFile = (30100, None) /\
  fst (exampleCycle (steadyRemote 6881) (fsWith "30100") startWorld)
    <> Unchanged.
Proof.
  split; [reflexivity|]. split; [reflexivity|].
  apply (proj2 (proj2 (lastPort_zero_or_valid (steadyRemote 6881)
                         exampleDecoder exampleClient examplePortFile))
           (fsWith "30100") startWorld 30100); reflexivity.
Defined.

(** ** Expiry recognised by the text of the error *)

(** The error of [GetListeningPort] for a status other than 200 and 403
    holds the status in decimal and nothing of the response, so its text
    never contains "authentication expired". *)

Lemma string_of_uint_lacks_a (u : Decimal.uint) :
  lacks "a" (NilEmpty.string_of_uint u) = true.
Proof. induction u; cbn; auto. Qed.

Lemma fmt_d_lacks_a (z : Z) : lacks "a" (fmt.d z) = true.
Proof.
  unfold fmt.d. destruct (Z.to_int z) as [u|u]; cbn;
    apply string_of_uint_lacks_a.
Qed.

Lemma Contains_lacks (s : string) (c : ascii) (rest : string) :
  lacks c s = true -> strings.Contains s (String c rest) = false.
Proof.
  induction s as [|x r IH]; intros H; [reflexivity|].
  cbn [lacks] in H. apply andb_true_iff in H as [Hx Hr].
  cbn [strings.Contains strings.HasPrefix].
  apply negb_true_iff in Hx. rewrite Hx. cbn [andb orb]. now apply IH.
Qed.

Lemma get_status_error_not_expired (status : Z) :
  strings.Contains ("unexpected status code: " ++ fmt.d status)
                   "authentication expired" = false.
Proof.
  cbn -[fmt.d]. apply Contains_lacks, fmt_d_lacks_a.
Qed.

(** After a failed [GetListeningPort], the text of the error decides:
    with "authentication expired" in it the next request is the login,
    without it the cycle returns. *)
Lemma get_error_classified (remote : Remote) (decodePrefs : Decoder)
    (fs : FS) (c : QBittorrentClient) (portFile : string) (w : World)
    (filePort x : Z) (err : string) :
  readPortFile fs portFile = (filePort, None) ->
  filePort <> lastPort w ->
  getResult remote decodePrefs c (sent w) = (x, Some err) ->
  if strings.Contains err "authentication expired"
  then exists rest,
         sent (snd (syncPort remote decodePrefs fs c portFile w))
           = (sent w ++ [getRequest c; loginRequest c] ++ rest)%list
  else fst (syncPort remote decodePrefs fs c portFile w) = GetFailed /\
       sent (snd (syncPort remote decodePrefs fs c portFile w))
         = (sent w ++ [getRequest c])%list.
Proof.
  intros Hread Hdiff Hget.
  destruct (syncPort remote decodePrefs fs c portFile w) as [exit w'] eqn:Hrun.
  destruct (syncPort_run _ _ _ _ _ _ _ _ Hrun) as (gets & sets & Hsent & Hc).
  cbn [fst snd]. rewrite Hsent.
  destruct (strings.Contains err "authentication expired") eqn:Htext;
    inversion Hc; subst; try (exfalso; congruence);
    match goal with
    | H : GetSite _ _ _ _ _ _ |- _ => inversion H; subst; clear H
    end;
    try (exfalso; congruence);
    try match goal with
      | H : SetSite _ _ _ _ _ _ |- _ => inversion H; subst; clear H
      end;
    cbn [app];
    first [ eexists; reflexivity | split; reflexivity ].
Qed.

(** The same after a failed [SetListeningPort]. *)
Lemma set_error_classified (remote : Remote) (decodePrefs : Decoder)
    (fs : FS) (c : QBittorrentClient) (portFile : string) (w : World)
    (filePort currentPort : Z) (gets : list Request) (err : string) :
  readPortFile fs portFile = (filePort, None) ->
  filePort <> lastPort w ->
  GetSite remote decodePrefs c (sent w) gets (inr currentPort) ->
  currentPort <> filePort ->
  setResult remote c filePort (sent w ++ gets) = Some err ->
  if strings.Contains err "authentication expired"
  then exists rest,
         sent (snd (syncPort remote decodePrefs fs c portFile w))
           = (sent w ++ gets ++ [setRequest c filePort; loginRequest c]
                ++ rest)%list
  else fst (syncPort remote decodePrefs fs c portFile w) = SetFailed /\
       sent (snd (syncPort remote decodePrefs fs c portFile w))
         = (sent w ++ gets ++ [setRequest c filePort])%list.
Proof.
  intros Hread Hdiff Hget Hcur HS.
  destruct (syncPort remote decodePrefs fs c portFile w) as [exit w'] eqn:Hrun.
  destruct (syncPort_run _ _ _ _ _ _ _ _ Hrun) as (gets' & sets & Hsent & Hc).
  cbn [fst snd]. rewrite Hsent.
  destruct (strings.Contains err "authentication expired") eqn:Htext;
    inversion Hc; subst; try (exfalso; congruence);
    match goal with
    | H : readPortFile fs portFile = (?p, None) |- _ =>
        lazymatch p with
        | filePort => fail
        | _ =>
            let E := fresh "E" in
            assert (E : p = filePort) by congruence;
            clear H; rewrite ?E in *
        end
    end;
    match goal with
    | H : GetSite _ _ _ _ _ _ |- _ =>
        destruct (GetSite_det _ _ _ _ _ _ _ _ H Hget) as [-> Hr];
        try discriminate Hr; try (injection Hr as ->); clear H
    end;
    try congruence;
    match goal with
    | H : SetSite _ _ _ _ _ _ |- _ => inversion H; subst; clear H
    end;
    try (exfalso; congruence);
    cbn [app];
    first [ eexists; reflexivity | split; reflexivity ].
Qed.

(** C10.  [syncPort] takes a failure of [GetListeningPort] or of
    [SetListeningPort] for an expired session exactly when the text of
    the error contains "authentication expired": then its next request
    is the login, otherwise the cycle returns.  [SetListeningPort] puts
    the body of a response that is neither 200 nor 403 into its error.
    So when the service answers the request to set the port with such a
    status and a body that contains "authentication expired", the error
    is the generic one, not the error of an expired session, and yet the
    cycle does not return there: its next request is the login.  The
    error of [GetListeningPort] for such a status holds no body, and
    there the cycle returns. *)
Theorem body_text_taken_for_expiry (remote : Remote) (decodePrefs : Decoder)
    (fs : FS) (c : QBittorrentClient) (portFile : string) (w : World)
    (filePort : Z) :
  readPortFile fs portFile = (filePort, None) ->
  filePort <> lastPort w ->
  (forall x err,
     getResult remote decodePrefs c (sent w) = (x, Some err) ->
     if strings.Contains err "authentication expired"
     then exists rest,
            sent (snd (syncPort remote decodePrefs fs c portFile w))
              = (sent w ++ [getRequest c; loginRequest c] ++ rest)%list
     else fst (syncPort remote decodePrefs fs c portFile w) = GetFailed /\
          sent (snd (syncPort remote decodePrefs fs c portFile w))
            = (sent w ++ [getRequest c])%list)
  /\
  (forall currentPort gets err,
     GetSite remote decodePrefs c (sent w) gets (inr currentPort) ->
     currentPort <> filePort ->
     setResult remote c filePort (sent w ++ gets) = Some err ->
     if strings.Contains err "authentication expired"
     then exists rest,
            sent (snd (syncPort remote decodePrefs fs c portFile w))
              = (sent w ++ gets ++ [setRequest c filePort; loginRequest c]
                   ++ rest)%list
     else fst (syncPort remote decodePrefs fs c portFile w) = SetFailed /\
          sent (snd (syncPort remote decodePrefs fs c portFile w))
            = (sent w ++ gets ++ [setRequest c filePort])%list)
  /\
  (forall currentPort gets status body_,
     GetSite remote decodePrefs c (sent w) gets (inr currentPort) ->
     currentPort <> filePort ->
     remote (sent w ++ gets)%list (setRequest c filePort)
       = Response status body_ ->
     status <> 403 ->
     status <> 200 ->
     strings.Contains body_ "authentication expired" = true ->
     setResult remote c filePort (sent w ++ gets)
       = Some ("unexpected status code: " ++ fmt.d status
                 ++ ", body: " ++ body_)
     /\
     setResult remote c filePort (sent w ++ gets)
       <> Some "authentication expired"
     /\
     fst (syncPort remote decodePrefs fs c portFile w) <> SetFailed
     /\
     exists rest,
       sent (snd (syncPort remote decodePrefs fs c portFile w))
         = (sent w ++ gets ++ [setRequest c filePort; loginRequest c]
              ++ rest)%list)
  /\
  (forall status body_,
     remote (sent w) (getRequest c) = Response status body_ ->
     status <> 403 ->
     status <> 200 ->
     fst (syncPort remote decodePrefs fs c portFile w) = GetFailed /\
     sent (snd (syncPort remote decodePrefs fs c portFile w))
       = (sent w ++ [getRequest c])%list).
Proof.
  intros Hread Hdiff. split; [|split; [|split]]; cycle 3.
  { intros status body_ Hremote H403 H200.
    assert (HG : getResult remote decodePrefs c (sent w)
                 = (0, Some ("unexpected status code: " ++ fmt.d status))).
    { rewrite getResult_eq, Hremote. unfold StatusForbidden, StatusOK.
      destruct (Z.eqb_spec status 403) as [|_]; [contradiction|].
      destruct (Z.eqb_spec status 200) as [|_]; [contradiction|].
      reflexivity. }
    pose proof (get_error_classified remote decodePrefs fs c portFile w
                  filePort 0 _ Hread Hdiff HG) as Hclass.
    rewrite get_status_error_not_expired in Hclass. exact Hclass. }
  - intros x err Hget.
    exact (get_error_classified remote decodePrefs fs c portFile w
             filePort x err Hread Hdiff Hget).
  - intros currentPort gets err Hget Hcur HS.
    exact (set_error_classified remote decodePrefs fs c portFile w
             filePort currentPort gets err Hread Hdiff Hget Hcur HS).
  - intros currentPort gets status body_ Hget Hcur Hremote H403 H200 Hbody.
    assert (HS : setResult remote c filePort (sent w ++ gets)
                 = Some ("unexpected status code: " ++ fmt.d status
                           ++ ", body: " ++ body_)).
    { rewrite setResult_eq, Hremote. unfold StatusForbidden, StatusOK.
      destruct (Z.eqb_spec status 403) as [|_]; [contradiction|].
      destruct (Z.eqb_spec status 200) as [|_]; [contradiction|].
      reflexivity. }
    assert (Htext : strings.Contains
                      ("unexpected status code: " ++ fmt.d status
                         ++ ", body: " ++ body_)
                      "authentication expired" = true)
      by (do 3 apply Contains_append_l; exact Hbody).
    pose proof (set_error_classified remote decodePrefs fs c portFile w
                  filePort currentPort gets _ Hread Hdiff Hget Hcur HS)
      as Hclass.
    rewrite Htext in Hclass. destruct Hclass as [rest Hsent].
    split; [exact HS|]. split; [rewrite HS; discriminate|].
    split; [|exists rest; exact Hsent].
    intros Hexit.
    destruct (syncPort remote decodePrefs fs c portFile w) as [exit w']
      eqn:Hrun.
    destruct (syncPort_run _ _ _ _ _ _ _ _ Hrun)
      as (gets' & sets & Hsent' & Hc).
    cbn [fst snd] in *. subst exit.
    inversion Hc; subst; try solve [invert_sites].
    match goal with
    | H : readPortFile fs portFile = (?p, None) |- _ =>
        lazymatch p with
        | filePort => fail
        | _ =>
            let E := fresh "E" in
            assert (E : p = filePort) by congruence;
            clear H; rewrite ?E in *
        end
    end.
    match goal with
    | H : GetSite _ _ _ _ _ _ |- _ =>
        destruct (GetSite_det _ _ _ _ _ _ _ _ H Hget) as [-> Hr]; clear H
    end.
    match goal with
    | H : SetSite _ _ _ _ _ _ |- _ => inversion H; subst; clear H
    end.
    congruence.
Qed.

Lemma body_text_taken_for_expiry_witness :
  setResult proxyRemote exampleClient 30100
    (sent startWorld ++ [getRequest exampleClient])
    = Some ("unexpected status code: 500, body: "
              ++ "upstream says: authentication expired")
  /\
  sent (snd (exampleCycle proxyRemote (fsWith "30100") startWorld))
    = (sent startWorld
       ++ [getRequest exampleClient; setRequest exampleClient 30100;
           loginRequest exampleClient; setRequest exampleClient 30100])%list.
Proof.
  destruct (proj1 (proj2 (proj2 (body_text_taken_for_expiry proxyRemote
                                   exampleDecoder (fsWith "30100")
                                   exampleClient examplePortFile startWorld
                                   30100 eq_refl ltac:(discriminate))))
              6881 [getRequest exampleClient] 500
              "upstream says: authentication expired")
    as (HS & _ & _ & rest & Hsent).
  - apply Get_ok. reflexivity.
  - discriminate.
  - reflexivity.
  - discriminate.
  - discriminate.
  - reflexivity.
  - split; [exact HS | reflexivity].
Defined.

(** * Further properties of the code *)

(** ** The verb [%d] and [strconv.Atoi] are inverse *)

Lemma digitsValue_of_uint_acc (u : Decimal.uint) :
  forall acc : positive,
    digitsValue (Z.pos acc) (NilEmpty.string_of_uint u)
      = Some (Z.pos (Pos.of_uint_acc u acc)).
Proof.
  induction u; intros acc; cbn [NilEmpty.string_of_uint Pos.of_uint_acc];
    [reflexivity | ..];
    cbn [digitsValue]; change (isDigit _) with true; cbv iota;
    rewrite <- IHu; f_equal;
    match goal with
    | |- context [byte ?c - 48] =>
        let v := eval vm_compute in (byte c - 48) in
        change (byte c - 48) with v
    end;
    lia.
Qed.

Lemma digitsValue_of_uint (u : Decimal.uint) :
  digitsValue 0 (NilEmpty.string_of_uint u) = Some (Z.of_N (Pos.of_uint u)).
Proof.
  induction u; cbn [NilEmpty.string_of_uint Pos.of_uint];
    [reflexivity | ..];
    cbn [digitsValue]; change (isDigit _) with true; cbv iota;
    first [ exact IHu | apply digitsValue_of_uint_acc ].
Qed.

Lemma unsignedDecimal_to_uint (p : positive) :
  unsignedDecimal (NilEmpty.string_of_uint (Pos.to_uint p)) = Some (Z.pos p).
Proof.
  pose proof (digitsValue_of_uint (Pos.to_uint p)) as H.
  rewrite DecimalPos.Unsigned.of_to in H. cbn [Z.of_N] in H.
  destruct (NilEmpty.string_of_uint (Pos.to_uint p)); [discriminate H|].
  exact H.
Qed.

(** The text that [%d] prints for an integer is a decimal integer of that
    value. *)
Lemma decimalInteger_fmt_d (z : Z) : decimalInteger (fmt.d z) = Some z.
Proof.
  unfold fmt.d. destruct z as [|p|p]; cbn [Z.to_int NilEmpty.string_of_int].
  - reflexivity.
  - apply unsignedDecimal_decimalInteger, unsignedDecimal_to_uint.
  - cbn [decimalInteger]. change (byte "-" =? 43) with false.
    change (byte "-" =? 45) with true. cbv iota.
    now rewrite unsignedDecimal_to_uint.
Qed.

Lemma unsignedDecimal_fmt_d (z : Z) :
  0 < z -> unsignedDecimal (fmt.d z) = Some z.
Proof.
  destruct z as [|p|p]; try lia. intros _. apply unsignedDecimal_to_uint.
Qed.

Lemma fmt_d_inj (a b : Z) : fmt.d a = fmt.d b -> a = b.
Proof.
  intros H. pose proof (decimalInteger_fmt_d a) as Ha.
  rewrite H, decimalInteger_fmt_d in Ha. now injection Ha.
Qed.

Lemma append_inj_l (p a b : string) : p ++ a = p ++ b -> a = b.
Proof.
  induction p as [|c p IH]; cbn; intros H; [exact H|].
  injection H as H. now apply IH.
Qed.

Lemma append_inj_r (a b s : string) : a ++ s = b ++ s -> a = b.
Proof.
  intros H.
  assert (Hlen : len a = len b).
  { apply (f_equal len) in H. rewrite !len_append in H. lia. }
  unfold len in Hlen.
  revert b H Hlen. induction a as [|c a IH]; intros [|d b] H Hlen;
    cbn in Hlen; try lia; [reflexivity|].
  cbn in H. injection H as -> H. f_equal. apply IH; [exact H | lia].
Qed.

Lemma Atoi_fmt_d (z : Z) :
  - 2 ^ 63 <= z < 2 ^ 63 -> strconv.Atoi (fmt.d z) = (z, None).
Proof.
  intros Hz. pose proof (Atoi_spec (fmt.d z)) as H.
  rewrite decimalInteger_fmt_d in H.
  destruct ((- 2 ^ 63 <=? z) && (z <? 2 ^ 63)) eqn:E; [exact H|].
  zb E. lia.
Qed.

(** ** The configuration *)

(** Every byte of a decimal integer is a digit, but for a sign in
    front. *)
Lemma decimalInteger_bytes (s : string) (v : Z) (k : nat) :
  decimalInteger s = Some v -> (k < len s)%nat ->
  48 <= at_ s k <= 57 \/ (k = 0%nat /\ (at_ s 0 = 43 \/ at_ s 0 = 45)).
Proof.
  destruct s as [|c r]; [discriminate|].
  cbn [decimalInteger]. intros H Hk.
  assert (Hr : forall p, unsignedDecimal r = Some p -> forall j,
                 (j < len r)%nat -> 48 <= at_ r j <= 57).
  { intros p Hp j Hj. destruct r; [discriminate|].
    exact (digitsValue_at _ _ _ _ Hp Hj). }
  destruct (Z.eqb_spec (byte c) 43) as [E|_].
  - destruct k as [|k]; [right; rewrite at_0_cons; auto|].
    left. change (at_ (String c r) (S k)) with (at_ r k).
    apply (Hr _ H). simpl in Hk. lia.
  - destruct (Z.eqb_spec (byte c) 45) as [E|_].
    + destruct k as [|k]; [right; rewrite at_0_cons; auto|].
      left. change (at_ (String c r) (S k)) with (at_ r k).
      destruct (unsignedDecimal r) as [p|] eqn:Hp; [|discriminate].
      apply (Hr _ eq_refl). simpl in Hk. lia.
    + left. exact (digitsValue_at _ _ _ _ H Hk).
Qed.

Lemma getEnvInt_eq (env : Env) (key : string) (defaultValue : Z) :
  getEnvInt env key defaultValue =
    match decimalInteger (env key) with
    | Some v =>
        if (- 2 ^ 63 <=? v) && (v <? 2 ^ 63) then v else defaultValue
    | None => defaultValue
    end.
Proof.
  unfold getEnvInt.
  destruct (String.eqb_spec (env key) "") as [E|_]; cbn [negb].
  - now rewrite E.
  - pose proof (Atoi_spec (env key)) as H.
    destruct (decimalInteger (env key)) as [v|].
    + destruct ((- 2 ^ 63 <=? v) && (v <? 2 ^ 63)).
      * now rewrite H.
      * destruct H as [u ->]. reflexivity.
    + destruct H as (u & e & ->). reflexivity.
Qed.

(** X1.  [getEnvInt] returns the value of the variable when it is a
    decimal integer (digits after an optional sign) that fits an [int],
    of either sign, and the default in every other case: the variable is
    unset or empty, is not a decimal integer, or does not fit.  Nothing
    is trimmed: a value with a space, a tab or a line end anywhere gives
    the default. *)
Theorem getEnvInt_value (env : Env) (key : string) (defaultValue : Z) :
  getEnvInt env key defaultValue =
    match decimalInteger (env key) with
    | Some v =>
        if (- 2 ^ 63 <=? v) && (v <? 2 ^ 63) then v else defaultValue
    | None => defaultValue
    end
  /\
  (forall k,
     (k < len (env key))%nat ->
     strings.asciiSpace (at_ (env key) k) = true ->
     getEnvInt env key defaultValue = defaultValue).
Proof.
  split; [apply getEnvInt_eq|].
  intros k Hk Hsp. rewrite getEnvInt_eq.
  destruct (decimalInteger (env key)) as [v|] eqn:Hv; [|reflexivity].
  exfalso.
  unfold strings.asciiSpace in Hsp. zb Hsp.
  destruct (decimalInteger_bytes _ _ k Hv Hk) as [Hd | [-> Hs]]; lia.
Qed.

(** [getEnv] returns a text that is not empty when the default is not. *)
Lemma getEnv_nonempty (env : Env) (key defaultValue : string) :
  defaultValue <> "" -> getEnv env key defaultValue <> "".
Proof.
  intros Hd. unfold getEnv.
  destruct (String.eqb_spec (env key) ""); cbn [negb]; assumption.
Qed.

Lemma loadConfig_eq (env : Env) :
  env "QBITTORRENT_PASSWORD" <> "" ->
  loadConfig env =
    (Some {| QBittorrentURL :=
               getEnv env "QBITTORRENT_URL" "http://localhost:30024";
             Username := getEnv env "QBITTORRENT_USERNAME" "admin";
             Password := env "QBITTORRENT_PASSWORD";
             PortFile := getEnv env "PORT_FILE" "/tmp/gluetun/forwarded_port";
             CheckInterval :=
               strconv.wrapInt
                 (getEnvInt env "CHECK_INTERVAL" 30 * time.Second) |},
     None).
Proof.
  intros Hpw. unfold loadConfig.
  destruct (String.eqb_spec (env "QBITTORRENT_PASSWORD") "");
    [contradiction | reflexivity].
Qed.

(** X2.  [loadConfig] fails exactly when [QBITTORRENT_PASSWORD] is unset
    or empty, whatever the other variables hold.  Otherwise it returns a
    configuration whose address, user name and port file are never
    empty, whose password is the variable's, and whose interval is the
    number of seconds in [CHECK_INTERVAL] when that is a decimal integer
    from 1 to 9223372036, and 30 seconds when it is unset or is not a
    decimal integer: a malformed interval is not an error. *)
Theorem loadConfig_result (env : Env) :
  (env "QBITTORRENT_PASSWORD" = "" ->
   loadConfig env =
     (None, Some "QBITTORRENT_PASSWORD environment variable is required"))
  /\
  (env "QBITTORRENT_PASSWORD" <> "" ->
   exists config,
     loadConfig env = (Some config, None) /\
     Password config = env "QBITTORRENT_PASSWORD" /\
     QBittorrentURL config <> "" /\
     Username config <> "" /\
     PortFile config <> "" /\
     (forall n,
        decimalInteger (env "CHECK_INTERVAL") = Some n ->
        1 <= n <= 9223372036 ->
        CheckInterval config = n * 1000000000) /\
     (decimalInteger (env "CHECK_INTERVAL") = None ->
      CheckInterval config = 30 * 1000000000)).
Proof.
  split.
  - intros Hpw. unfold loadConfig. now rewrite Hpw.
  - intros Hpw. eexists. split; [apply (loadConfig_eq env Hpw)|].
    cbn [Password QBittorrentURL Username PortFile CheckInterval].
    split; [reflexivity|].
    split; [apply getEnv_nonempty; discriminate|].
    split; [apply getEnv_nonempty; discriminate|].
    split; [apply getEnv_nonempty; discriminate|].
    rewrite getEnvInt_eq. unfold time.Second.
    change (2 ^ 63) with 9223372036854775808.
    split.
    + intros n -> Hn.
      destruct ((- (9223372036854775808) <=? n) && (n <? 9223372036854775808))
        eqn:E; zb E; [|lia].
      apply wrapInt_small. change (2 ^ 63) with 9223372036854775808. lia.
    + intros ->. reflexivity.
Qed.

Lemma loadConfig_result_witness :
  exists config,
    loadConfig (envWithInterval "60") = (Some config, None) /\
    CheckInterval config = 60 * 1000000000.
Proof.
  destruct (proj2 (loadConfig_result (envWithInterval "60")))
    as (config & Hload & _ & _ & _ & _ & Hint & _).
  - discriminate.
  - exists config. split; [exact Hload|].
    apply (Hint 60); [reflexivity | lia].
Defined.

(** ** Startup *)

Section StartupFacts.

Variable remote : Remote.
Variable decodePrefs : Decoder.
Variable durationString : time.Duration -> string.

(** [main] without its configuration: the process dies at once. *)
Lemma main_no_password (env : Env) (jar : error) (stats : list Stat)
    (now : FS) (ticks : list FS) (w : World) :
  env "QBITTORRENT_PASSWORD" = "" ->
  main remote decodePrefs durationString env jar stats now ticks w =
    (Fatal,
     addLog ("Failed to load configuration: "
               ++ "QBITTORRENT_PASSWORD environment variable is required")
       (addLog "qBittorrent Port Sync starting..." w)).
Proof.
  intros Hpw. unfold main, loadConfig. rewrite Hpw. reflexivity.
Qed.

Lemma main_no_jar (env : Env) (err : string) (stats : list Stat)
    (now : FS) (ticks : list FS) (w : World) :
  env "QBITTORRENT_PASSWORD" <> "" ->
  main remote decodePrefs durationString env (Some err) stats now ticks w =
    (Fatal,
     addLog ("Failed to create qBittorrent client: "
               ++ "failed to create cookie jar: " ++ err)
       (configLogged durationString env w)).
Proof.
  intros Hpw. unfold main. rewrite (loadConfig_eq env Hpw). reflexivity.
Qed.

(** [main] with a configuration and a cookie jar, by what the login,
    the wait for the file and the interval give. *)
Lemma main_eq (env : Env) (stats : list Stat) (now : FS) (ticks : list FS)
    (w : World) :
  env "QBITTORRENT_PASSWORD" <> "" ->
  main remote decodePrefs durationString env None stats now ticks w =
    let client := configuredClient env in
    let asked := addRequest (loginRequest client)
                   (configLogged durationString env w) in
    match loginResult remote client (sent w) with
    | Some err => (Fatal, addLog ("Initial login failed: " ++ err) asked)
    | None =>
        let waiting :=
          addLog ("Waiting for port file: " ++ configuredPortFile env)
            (addLog "Successfully authenticated with qBittorrent" asked) in
        match pollPortFile (configuredPortFile env) stats with
        | None => (Waiting, waiting)
        | Some _ =>
            let found :=
              storeLastPort 0
                (addLog "Port file found, starting sync loop..." waiting) in
            if configuredInterval env <=? 0 then (Panicked, found)
            else
              (Running,
               snd (syncLoop remote decodePrefs client
                      (configuredPortFile env) (now :: ticks) found))
        end
    end.
Proof.
  intros Hpw. unfold main. rewrite (loadConfig_eq env Hpw).
  unfold body, andThen, call, return_, skip, pure, log_Fatalf, log_Println,
    log_Printf, assignLastPort, NewQBittorrentClient.
  cbn [QBittorrentURL Username Password PortFile CheckInterval].
  change {| baseURL := getEnv env "QBITTORRENT_URL" "http://localhost:30024";
            username := getEnv env "QBITTORRENT_USERNAME" "admin";
            password := env "QBITTORRENT_PASSWORD" |}
    with (configuredClient env).
  rewrite Login_eq. cbn [sent addLog].
  cbv zeta.
  destruct (loginResult remote (configuredClient env) (sent w)) as [err|];
    [reflexivity|].
  change (getEnv env "PORT_FILE" "/tmp/gluetun/forwarded_port")
    with (configuredPortFile env).
  destruct (pollPortFile (configuredPortFile env) stats) as [k|];
    [|reflexivity].
  change (strconv.wrapInt (getEnvInt env "CHECK_INTERVAL" 30 * time.Second))
    with (configuredInterval env).
  destruct (configuredInterval env <=? 0); [reflexivity|].
  match goal with
  | |- ?lhs = (Running, snd ?R) =>
      match lhs with
      | context [syncLoop ?r ?d ?c ?p ?t ?x] =>
          change R with (syncLoop r d c p t x);
          destruct (syncLoop r d c p t x) as [[] wl]
      end
  end.
  reflexivity.
Qed.

End StartupFacts.

(** ** How much a cycle and the loop send *)

Lemma logins_app (c : QBittorrentClient) (a b : list Request) :
  logins c (a ++ b) = (logins c a + logins c b)%nat.
Proof. unfold logins. apply count_occ_app. Qed.

Lemma syncPort_traffic (remote : Remote) (decodePrefs : Decoder) (fs : FS)
    (c : QBittorrentClient) (portFile : string) (w : World) :
  exists tr,
    sent (snd (syncPort remote decodePrefs fs c portFile w))
      = (sent w ++ tr)%list /\
    (List.length tr <= 6)%nat /\ (logins c tr <= 2)%nat.
Proof.
  destruct (syncPort remote decodePrefs fs c portFile w) as [exit w'] eqn:Hrun.
  destruct (syncPort_run _ _ _ _ _ _ _ _ Hrun) as (gets & sets & Hsent & Hc).
  exists (gets ++ sets)%list. cbn [snd]. split; [exact Hsent|].
  inversion Hc; subst; invert_sites; cbn [app List.length];
    (split; [lia | count_logins; lia]).
Qed.

Lemma syncLoop_traffic (remote : Remote) (decodePrefs : Decoder)
    (c : QBittorrentClient) (portFile : string) (ticks : list FS) :
  forall w,
    exists tr,
      sent (snd (syncLoop remote decodePrefs c portFile ticks w))
        = (sent w ++ tr)%list /\
      (List.length tr <= 6 * List.length ticks)%nat /\
      (logins c tr <= 2 * List.length ticks)%nat.
Proof.
  induction ticks as [|fs ticks IH]; intros w.
  - exists []. cbn. rewrite app_nil_r. repeat split; lia.
  - cbn [syncLoop].
    destruct (syncPort_traffic remote decodePrefs fs c portFile w)
      as (tr1 & Hs1 & Hl1 & Hg1).
    destruct (syncPort remote decodePrefs fs c portFile w) as [exit w1].
    cbn [snd] in Hs1.
    destruct (IH w1) as (tr2 & Hs2 & Hl2 & Hg2).
    exists (tr1 ++ tr2)%list. rewrite Hs2, Hs1, <- app_assoc.
    split; [reflexivity|].
    rewrite List.length_app, logins_app. cbn [List.length]. lia.
Qed.

(** X3.  Whatever the service answers, a cycle adds at most six requests
    to those already sent, at most two of them logins, and changes none
    of the earlier ones; the loop over [n] ticks adds at most [6 n], of
    which at most [2 n] logins.  There is no retry within a cycle beyond
    these. *)
Theorem bounded_traffic (remote : Remote) (decodePrefs : Decoder)
    (c : QBittorrentClient) (portFile : string) :
  (forall fs w,
     exists tr,
       sent (snd (syncPort remote decodePrefs fs c portFile w))
         = (sent w ++ tr)%list /\
       (List.length tr <= 6)%nat /\ (logins c tr <= 2)%nat)
  /\
  (forall ticks w,
     exists tr,
       sent (snd (syncLoop remote decodePrefs c portFile ticks w))
         = (sent w ++ tr)%list /\
       (List.length tr <= 6 * List.length ticks)%nat /\
       (logins c tr <= 2 * List.length ticks)%nat).
Proof.
  split.
  - intros fs w. apply syncPort_traffic.
  - intros ticks w. apply syncLoop_traffic.
Qed.

(** ** The outcomes of [main] *)

Lemma pollPortFile_first (portFile : string) (stats : list Stat) :
  forall k,
    pollPortFile portFile stats = Some k <->
    (exists stat,
       nth_error stats k = Some stat /\ stat portFile = None) /\
    (forall j stat,
       (j < k)%nat -> nth_error stats j = Some stat -> stat portFile <> None).
Proof.
  induction stats as [|s later IH]; intros k; cbn [pollPortFile].
  - split; [discriminate|]. intros [(stat & H & _) _].
    destruct k; discriminate H.
  - destruct (s portFile) as [err|] eqn:Hs.
    + destruct k as [|k].
      * split.
        -- destruct (pollPortFile portFile later); discriminate.
        -- intros [(stat & H & Hnone) _]. cbn in H. injection H as <-.
           congruence.
      * specialize (IH k).
        split.
        -- intros H.
           destruct (pollPortFile portFile later) as [k'|] eqn:Hp;
             [|discriminate].
           cbn in H. injection H as ->.
           destruct (proj1 IH eq_refl) as [Hk Hbefore].
           split; [exact Hk|].
           intros [|j] stat Hj Hn; cbn in Hn.
           ++ injection Hn as <-. congruence.
           ++ apply (Hbefore j stat); [lia | exact Hn].
        -- intros [Hk Hbefore].
           rewrite (proj2 IH); [reflexivity|].
           split; [exact Hk|].
           intros j stat Hj Hn. apply (Hbefore (S j) stat); [lia | exact Hn].
    + split.
      * intros H. injection H as <-.
        split; [exists s; split; [reflexivity | exact Hs]|].
        intros j stat Hj. lia.
      * intros [_ Hbefore]. destruct k as [|k]; [reflexivity|].
        exfalso. apply (Hbefore 0%nat s); [lia | reflexivity | exact Hs].
Qed.

Section Outcomes.

Variable remote : Remote.
Variable decodePrefs : Decoder.
Variable durationString : time.Duration -> string.

(** X4.  [main] leaves through [log.Fatalf] exactly when the password is
    missing, the cookie jar cannot be made, or the first login fails.
    In the first two cases it has sent nothing; in the third it has sent
    the login and nothing else.  In no case has it run a cycle:
    [lastPort] is as it was. *)
Theorem main_fatal_iff (env : Env) (jar : error) (stats : list Stat)
    (now : FS) (ticks : list FS) (w : World) :
  let run := main remote decodePrefs durationString env jar stats now ticks w in
  (fst run = Fatal <->
   env "QBITTORRENT_PASSWORD" = "" \/ jar <> None \/
   loginResult remote (configuredClient env) (sent w) <> None)
  /\
  (env "QBITTORRENT_PASSWORD" = "" \/ jar <> None ->
   sent (snd run) = sent w)
  /\
  (fst run = Fatal ->
   lastPort (snd run) = lastPort w /\
   (sent (snd run) = sent w \/
    sent (snd run) = (sent w ++ [loginRequest (configuredClient env)])%list)).
Proof.
  cbv zeta.
  destruct (String.eqb_spec (env "QBITTORRENT_PASSWORD") "") as [Hpw|Hpw].
  { rewrite (main_no_password remote decodePrefs durationString env jar
               stats now ticks w Hpw).
    cbn. repeat split; auto. }
  destruct jar as [err|].
  { rewrite (main_no_jar remote decodePrefs durationString env err
               stats now ticks w Hpw).
    cbn. repeat split; auto. right. left. discriminate. }
  rewrite (main_eq remote decodePrefs durationString env stats now ticks w Hpw).
  cbv zeta.
  destruct (loginResult remote (configuredClient env) (sent w)) as [err|].
  { cbn. repeat split; auto.
    - intros _. right. right. discriminate.
    - intros [H|H]; congruence. }
  destruct (pollPortFile (configuredPortFile env) stats) as [k|];
    [destruct (configuredInterval env <=? 0)|];
    cbn [fst snd];
    (split; [split; [discriminate | intros [H|[H|H]]; congruence]|]);
    (split; [intros [H|H]; congruence | discriminate]).
Qed.

End Outcomes.

Section Ticker.

Variable remote : Remote.
Variable decodePrefs : Decoder.
Variable durationString : time.Duration -> string.

Lemma configuredInterval_small (env : Env) (n : Z) :
  decimalInteger (env "CHECK_INTERVAL") = Some n ->
  - 9223372036 <= n <= 9223372036 ->
  configuredInterval env = n * 1000000000.
Proof.
  intros Hn Hr. unfold configuredInterval, time.Second.
  rewrite getEnvInt_eq, Hn.
  change (2 ^ 63) with 9223372036854775808.
  destruct ((- (9223372036854775808) <=? n) && (n <? 9223372036854775808))
    eqn:E; zb E; [|lia].
  apply wrapInt_small. change (2 ^ 63) with 9223372036854775808. lia.
Qed.

Lemma configuredInterval_wraps (env : Env) (n : Z) :
  decimalInteger (env "CHECK_INTERVAL") = Some n ->
  9223372037 <= n <= 18446744073 ->
  configuredInterval env = n * 1000000000 - 2 ^ 64.
Proof.
  intros Hn Hr. unfold configuredInterval, time.Second.
  rewrite getEnvInt_eq, Hn.
  change (2 ^ 63) with 9223372036854775808.
  change (2 ^ 64) with 18446744073709551616.
  destruct ((- (9223372036854775808) <=? n) && (n <? 9223372036854775808))
    eqn:E; zb E; [|lia].
  unfold strconv.wrapInt.
  change (2 ^ 63) with 9223372036854775808.
  change (2 ^ 64) with 18446744073709551616.
  replace (n * 1000000000 + 9223372036854775808)
    with (n * 1000000000 - 9223372036854775808 + 1 * 18446744073709551616)
    by ring.
  rewrite Z.mod_add by lia. rewrite Z.mod_small by lia. lia.
Qed.

(** X5.  [CHECK_INTERVAL] is not checked.  With a password, a cookie jar,
    a first login that succeeds and a port file that appears, [main]
    panics in [time.NewTicker] exactly when the interval it computed is
    not positive.  That is so for every interval from -9223372036 to 0
    seconds, and, the product with [time.Second] wrapping around, for
    every interval from 9223372037 to 18446744073 seconds.  The process
    has then logged in and waited for the file, and has run no cycle. *)
Theorem main_panics_on_interval (env : Env) (stats : list Stat) (now : FS)
    (ticks : list FS) (w : World) (slept : nat) :
  let run :=
    main remote decodePrefs durationString env None stats now ticks w in
  env "QBITTORRENT_PASSWORD" <> "" ->
  loginResult remote (configuredClient env) (sent w) = None ->
  pollPortFile (configuredPortFile env) stats = Some slept ->
  (fst run = Panicked <-> configuredInterval env <= 0)
  /\
  (fst run = Panicked ->
   sent (snd run) = (sent w ++ [loginRequest (configuredClient env)])%list)
  /\
  (forall n,
     decimalInteger (env "CHECK_INTERVAL") = Some n ->
     - 9223372036 <= n <= 0 \/ 9223372037 <= n <= 18446744073 ->
     fst run = Panicked).
Proof.
  cbv zeta. intros Hpw Hlogin Hpoll.
  rewrite (main_eq remote decodePrefs durationString env stats now ticks w Hpw).
  cbv zeta. rewrite Hlogin, Hpoll.
  assert (Hn : forall n,
             decimalInteger (env "CHECK_INTERVAL") = Some n ->
             - 9223372036 <= n <= 0 \/ 9223372037 <= n <= 18446744073 ->
             configuredInterval env <= 0).
  { intros n Hn [Hr|Hr].
    - rewrite (configuredInterval_small env n Hn) by lia. lia.
    - rewrite (configuredInterval_wraps env n Hn Hr).
      change (2 ^ 64) with 18446744073709551616. lia. }
  destruct (Z.leb_spec (configuredInterval env) 0) as [Hle|Hgt];
    cbn [fst snd].
  - repeat split; auto.
  - split; [split; [discriminate | lia]|].
    split; [discriminate|].
    intros n Hdec Hr. specialize (Hn n Hdec Hr). lia.
Qed.

End Ticker.

Lemma main_panics_on_interval_witness :
  fst (main (steadyRemote 6881) exampleDecoder secondsString
         (envWithInterval "0") None [statMissing; statPresent]
         (fsWith "30100") [] bootWorld) = Panicked.
Proof.
  apply (proj2 (proj2 (main_panics_on_interval (steadyRemote 6881)
                         exampleDecoder secondsString (envWithInterval "0")
                         [statMissing; statPresent] (fsWith "30100") []
                         bootWorld 1
                         ltac:(discriminate) eq_refl eq_refl))
           0 eq_refl).
  left. lia.
Defined.


Section Loop.

Variable remote : Remote.
Variable decodePrefs : Decoder.
Variable durationString : time.Duration -> string.

(** X6.  With a password, a cookie jar, a first login that succeeds and a
    positive interval, [main] waits for the port file and sends nothing
    while it waits; the wait ends at the first [os.Stat] that finds the
    file.  From then on it runs the first cycle and one per tick: the
    login is its first request, the cycles add at most six requests
    each, and [lastPort], zero at first, is zero or a port in
    [1, 65535]. *)
Theorem main_reaches_loop (env : Env) (stats : list Stat) (now : FS)
    (ticks : list FS) (w : World) :
  let run :=
    main remote decodePrefs durationString env None stats now ticks w in
  let client := configuredClient env in
  env "QBITTORRENT_PASSWORD" <> "" ->
  loginResult remote client (sent w) = None ->
  0 < configuredInterval env ->
  (pollPortFile (configuredPortFile env) stats = None ->
   fst run = Waiting /\
   sent (snd run) = (sent w ++ [loginRequest client])%list)
  /\
  (forall slept,
     pollPortFile (configuredPortFile env) stats = Some slept ->
     fst run = Running /\
     (exists tr,
        sent (snd run) = (sent w ++ loginRequest client :: tr)%list /\
        (List.length tr <= 6 * (1 + List.length ticks))%nat /\
        (logins client tr <= 2 * (1 + List.length ticks))%nat) /\
     (lastPort (snd run) = 0 \/ 1 <= lastPort (snd run) <= 65535))
  /\
  (forall slept,
     pollPortFile (configuredPortFile env) stats = Some slept <->
     (exists stat,
        nth_error stats slept = Some stat /\
        stat (configuredPortFile env) = None) /\
     (forall j stat,
        (j < slept)%nat -> nth_error stats j = Some stat ->
        stat (configuredPortFile env) <> None)).
Proof.
  cbv zeta. intros Hpw Hlogin Hpos.
  rewrite (main_eq remote decodePrefs durationString env stats now ticks w Hpw).
  cbv zeta. rewrite Hlogin.
  split; [|split].
  - intros ->. cbn. auto.
  - intros slept ->.
    destruct (Z.leb_spec (configuredInterval env) 0) as [Hle|_]; [lia|].
    cbn [fst snd].
    split; [reflexivity|]. split.
    + match goal with
      | |- context [syncLoop ?r ?d ?c ?p ?t ?x] =>
          destruct (syncLoop_traffic r d c p t x) as (tr & Hs & Hl & Hg)
      end.
      exists tr. rewrite Hs. cbn [sent storeLastPort addLog addRequest].
      unfold configLogged. cbn [sent addLog].
      rewrite <- app_assoc. cbn [app List.length] in *.
      repeat split; [lia | lia].
    + match goal with
      | |- context [syncLoop ?r ?d ?c ?p ?t ?x] =>
          apply (syncLoop_keeps_range r d c p t x)
      end.
      left. reflexivity.
  - intros slept. apply pollPortFile_first.
Qed.

End Loop.

Lemma main_reaches_loop_witness :
  fst (main (steadyRemote 6881) exampleDecoder secondsString exampleEnv None
         [statMissing; statPresent] (fsWith "30100") [fsWith "30200"]
         bootWorld) = Running.
Proof.
  apply (proj1 (proj2 (main_reaches_loop (steadyRemote 6881) exampleDecoder
                         secondsString exampleEnv [statMissing; statPresent]
                         (fsWith "30100") [fsWith "30200"] bootWorld
                         ltac:(discriminate) eq_refl eq_refl))
           1%nat eq_refl).
Defined.

(** ** What a cycle logs *)

Section Logs.

Variable remote : Remote.
Variable decodePrefs : Decoder.

#[local] Arguments getResult : simpl never.
#[local] Arguments setResult : simpl never.
#[local] Arguments loginResult : simpl never.
#[local] Arguments append : simpl never.
#[local] Arguments strings.Contains : simpl never.
#[local] Arguments failureWords : simpl never.

Ltac walk :=
  match goal with
  | |- context [GetListeningPort _ _ ?c ?w] =>
      rewrite (GetListeningPort_eq _ _ c w)
  | |- context [Login _ ?c ?w] => rewrite (Login_eq _ c w)
  | |- context [SetListeningPort _ ?c ?p ?w] =>
      rewrite (SetListeningPort_eq _ c p w)
  | |- context [getResult ?r ?d ?c ?h] =>
      destruct (getResult r d c h) as [? [?|]]
  | |- context [loginResult ?r ?c ?h] =>
      destruct (loginResult r c h)
  | |- context [setResult ?r ?c ?p ?h] =>
      destruct (setResult r c p h)
  | |- context [strings.Contains ?e ?t] =>
      destruct (strings.Contains e t)
  | |- context [negb (?a =? ?b)] => destruct (a =? b)
  end;
  cbn.

Ltac logged_lines :=
  let H := fresh in
  intros H; injection H as <- <-;
  cbn [logged addLog addRequest storeLastPort];
  rewrite <- ?app_assoc; cbn [app];
  eexists; split; [reflexivity|];
  cbn [List.length last failureWords];
  refine (conj _ (conj _ (conj _ (conj _ (conj _ _)))));
  [ lia | lia
  | intros ? ? Hr; first [congruence | injection Hr as <- <-; reflexivity]
  | intros ? Hr ?;
    first [congruence | subst; contradiction
          | injection Hr as <-; reflexivity]
  | intros ? Hr ?; first [congruence | injection Hr as <-; eauto]
  | intros ? ?; first [congruence | unfold failureWords; eauto] ].

Lemma syncPort_logged (fs : FS) (c : QBittorrentClient) (portFile : string)
    (w w' : World) (exit : Exit) :
  syncPort remote decodePrefs fs c portFile w = (exit, w') ->
  exists lines,
    logged w' = (logged w ++ lines)%list /\
    (1 <= List.length lines)%nat /\
    (List.length lines <= 7)%nat /\
    (forall x err,
       readPortFile fs portFile = (x, Some err) ->
       lines = ["Error reading port file: " ++ err]) /\
    (forall filePort,
       readPortFile fs portFile = (filePort, None) ->
       filePort = lastPort w ->
       lines = ["Port unchanged: " ++ fmt.d filePort]) /\
    (forall filePort,
       readPortFile fs portFile = (filePort, None) ->
       filePort <> lastPort w ->
       exists more,
         lines = ("Port changed from " ++ fmt.d (lastPort w) ++ " to "
                    ++ fmt.d filePort ++ ", updating qBittorrent...")
                 :: more) /\
    (exit <> Completed -> exit <> Unchanged ->
     exists err, last lines "" = failureWords exit ++ err).
Proof.
  unfold syncPort, body, andThen, call, return_, skip, pure, log_Println,
    log_Printf, loadLastPort, assignLastPort.
  destruct (readPortFile fs portFile) as [filePort [err|]] eqn:Hread.
  { cbn. logged_lines. }
  destruct (Z.eqb_spec filePort (lastPort w)) as [Hsame|Hdiff].
  { cbn. logged_lines. }
  repeat walk; logged_lines.
Qed.

End Logs.

(** X7.  When the port file cannot be read, or its contents are not a
    port, the cycle touches nothing but the log: no request is sent,
    [lastPort] stays, and exactly one line is logged, which carries the
    error of [readPortFile]. *)
Theorem unreadable_file_no_traffic (remote : Remote) (decodePrefs : Decoder)
    (fs : FS) (c : QBittorrentClient) (portFile : string) (w : World)
    (x : Z) (err : string) :
  readPortFile fs portFile = (x, Some err) ->
  fst (syncPort remote decodePrefs fs c portFile w) = ReadFailed /\
  sent (snd (syncPort remote decodePrefs fs c portFile w)) = sent w /\
  lastPort (snd (syncPort remote decodePrefs fs c portFile w)) = lastPort w /\
  logged (snd (syncPort remote decodePrefs fs c portFile w))
    = (logged w ++ [("Error reading port file: " ++ err)%string])%list.
Proof.
  intros Hread.
  assert (Hc : Cycle remote decodePrefs c fs portFile (lastPort w) (sent w)
                 ReadFailed (lastPort w) [] [])
    by (eapply Cycle_read_failed; exact Hread).
  destruct (syncPort_follows _ _ _ _ _ _ _ _ _ _ Hc) as (He & Hl & Hs).
  cbn [app] in Hs. rewrite app_nil_r in Hs.
  destruct (syncPort remote decodePrefs fs c portFile w) as [exit w'] eqn:Hrun.
  destruct (syncPort_logged _ _ _ _ _ _ _ _ Hrun)
    as (lines & Hlog & _ & _ & Hlines & _).
  cbn [fst snd] in *. rewrite Hlog, (Hlines x err Hread). auto.
Qed.

Lemma unreadable_file_no_traffic_witness :
  sent (snd (exampleCycle (steadyRemote 6881) fsMissing startWorld))
    = sent startWorld /\
  sent (snd (exampleCycle (steadyRemote 6881) (fsWith "70000") startWorld))
    = sent startWorld.
Proof.
  split.
  - apply (unreadable_file_no_traffic (steadyRemote 6881) exampleDecoder
             fsMissing exampleClient examplePortFile startWorld 0
             ("failed to read port file: "
                ++ "open /tmp/gluetun/forwarded_port: "
                ++ "no such file or directory")
             eq_refl).
  - apply (unreadable_file_no_traffic (steadyRemote 6881) exampleDecoder
             (fsWith "70000") exampleClient examplePortFile startWorld 0
             "port number out of range: 70000" eq_refl).
Defined.



(** X9.  A failure is tried again at the next tick.  When a cycle has
    returned early after asking the service (at the GetPort site or at
    the SetPort site), the next cycle on a file that reads the same does
    not return at the comparison: it asks the service for its port
    again. *)
Theorem failure_retried_next_tick (remote : Remote) (decodePrefs : Decoder)
    (fs fs' : FS) (c : QBittorrentClient) (portFile : string)
    (w w' : World) (exit : Exit) :
  syncPort remote decodePrefs fs c portFile w = (exit, w') ->
  exit <> Completed -> exit <> Unchanged -> exit <> ReadFailed ->
  readPortFile fs' portFile = readPortFile fs portFile ->
  fst (syncPort remote decodePrefs fs' c portFile w') <> Unchanged /\
  fst (syncPort remote decodePrefs fs' c portFile w') <> ReadFailed /\
  exists rest,
    sent (snd (syncPort remote decodePrefs fs' c portFile w'))
      = (sent w' ++ getRequest c :: rest)%list.
Proof.
  intros Hrun Hc1 Hc2 Hc3 Hsame.
  destruct (syncPort_run _ _ _ _ _ _ _ _ Hrun) as (gets & sets & Hsent & Hc).
  assert (Hstate : exists filePort,
             readPortFile fs portFile = (filePort, None) /\
             filePort <> lastPort w').
  { inversion Hc; subst; try congruence; eexists; split; eauto; congruence. }
  destruct Hstate as (filePort & Hread & Hdiff).
  rewrite <- Hsame in Hread.
  destruct (syncPort remote decodePrefs fs' c portFile w') as [exit2 w2]
    eqn:Hrun2.
  destruct (syncPort_run _ _ _ _ _ _ _ _ Hrun2)
    as (gets2 & sets2 & Hsent2 & Hc').
  cbn [fst snd]. rewrite Hsent2.
  inversion Hc'; subst; try (exfalso; congruence);
    (split; [solve [discriminate | invert_sites; discriminate]|]);
    (split; [solve [discriminate | invert_sites; discriminate]|]);
    invert_sites; cbn [app]; eauto.
Qed.

Lemma failure_retried_next_tick_witness :
  exists rest,
    sent (snd (exampleCycle (constRemote 500 "") (fsWith ("30100" ++ newline))
                 (snd (exampleCycle (constRemote 500 "") (fsWith "30100")
                         startWorld))))
      = (sent (snd (exampleCycle (constRemote 500 "") (fsWith "30100")
                      startWorld))
         ++ getRequest exampleClient :: rest)%list.
Proof.
  apply (failure_retried_next_tick (constRemote 500 "") exampleDecoder
           (fsWith "30100") (fsWith ("30100" ++ newline)) exampleClient
           examplePortFile startWorld
           (snd (exampleCycle (constRemote 500 "") (fsWith "30100")
                   startWorld))
           GetFailed eq_refl);
    first [discriminate | reflexivity].
Defined.

(** ** What a cycle sends *)

Lemma marshalPrefs_inj (a b : Z) : marshalPrefs a = marshalPrefs b -> a = b.
Proof.
  unfold marshalPrefs. intros H.
  do 5 apply append_inj_l in H.
  apply append_inj_r in H. now apply fmt_d_inj.
Qed.

Lemma setRequest_inj (c : QBittorrentClient) (a b : Z) :
  setRequest c a = setRequest c b -> a = b.
Proof.
  unfold setRequest. intros H.
  assert (E : marshalPrefs a = marshalPrefs b) by congruence.
  now apply marshalPrefs_inj.
Qed.

(** X10.  A cycle sends requests of three kinds only: for the
    preferences, for the login, and to set the port.  The first request
    of a cycle is always the one for the preferences.  A request to set
    the port carries the port that [readPortFile] returned in this
    cycle, which is in [1, 65535] and differs from [lastPort]: no cycle
    sets a port that the file does not hold, and none sets a port when
    the file could not be read. *)
Theorem only_the_file_port_is_set (remote : Remote) (decodePrefs : Decoder)
    (fs : FS) (c : QBittorrentClient) (portFile : string)
    (w w' : World) (exit : Exit) :
  syncPort remote decodePrefs fs c portFile w = (exit, w') ->
  exists tr,
    sent w' = (sent w ++ tr)%list /\
    (forall rq,
       In rq tr ->
       rq = getRequest c \/ rq = loginRequest c \/
       exists filePort, rq = setRequest c filePort) /\
    (tr <> [] -> exists rest, tr = getRequest c :: rest) /\
    (forall port,
       In (setRequest c port) tr ->
       readPortFile fs portFile = (port, None) /\
       1 <= port <= 65535 /\ port <> lastPort w).
Proof.
  intros Hrun.
  destruct (syncPort_run _ _ _ _ _ _ _ _ Hrun) as (gets & sets & Hsent & Hc).
  exists (gets ++ sets)%list. split; [exact Hsent|].
  assert (Hshape :
            (gets ++ sets)%list = [] \/
            (exists more, (gets ++ sets)%list = getRequest c :: more /\
               forall rq, In rq more -> rq = getRequest c \/
                                        rq = loginRequest c) \/
            (exists filePort more,
               readPortFile fs portFile = (filePort, None) /\
               filePort <> lastPort w /\
               (gets ++ sets)%list = getRequest c :: more /\
               forall rq, In rq more ->
                 rq = getRequest c \/ rq = loginRequest c \/
                 rq = setRequest c filePort)).
  { inversion Hc; subst; invert_sites; cbn [app];
      first
        [ left; reflexivity
        | solve [ right; left; eexists; split; [reflexivity|];
                  cbn [In]; intros rq Hin; (intuition auto) ]
        | solve [ right; right; eexists; eexists;
                  split; [eassumption|]; split; [assumption|];
                  split; [reflexivity|];
                  cbn [In]; intros rq Hin; (intuition auto) ] ]. }
  destruct Hshape as [-> | [(more & -> & Hmore)
                            | (filePort & more & Hread & Hdiff & -> & Hmore)]].
  - split; [|split];
      [intros rq [] | intros H; now contradiction H | intros port []].
  - split; [|split].
    + intros rq [<-|Hin]; [auto|].
      destruct (Hmore rq Hin); auto.
    + intros _. eauto.
    + intros port [Hin|Hin]; [discriminate Hin|].
      destruct (Hmore _ Hin) as [E|E];
        [discriminate E | exfalso; exact (set_not_login c port E)].
  - split; [|split].
    + intros rq [<-|Hin]; [auto|].
      destruct (Hmore rq Hin) as [E|[E|E]]; eauto.
    + intros _. eauto.
    + intros port [Hin|Hin]; [discriminate Hin|].
      destruct (Hmore _ Hin) as [E|[E|E]];
        [discriminate E | exfalso; exact (set_not_login c port E) |].
      apply setRequest_inj in E. subst port.
      repeat split; try assumption;
        apply (readPortFile_valid _ _ _ Hread).
Qed.

Lemma only_the_file_port_is_set_witness :
  exists tr,
    sent (snd (exampleCycle (steadyRemote 6881) (fsWith "30100") startWorld))
      = (sent startWorld ++ tr)%list /\
    forall port,
      In (setRequest exampleClient port) tr -> port = 30100.
Proof.
  destruct (only_the_file_port_is_set (steadyRemote 6881) exampleDecoder
              (fsWith "30100") exampleClient examplePortFile startWorld
              (snd (exampleCycle (steadyRemote 6881) (fsWith "30100")
                      startWorld))
              Completed eq_refl)
    as (tr & Hsent & _ & _ & Hset).
  exists tr. split; [exact Hsent|].
  intros port Hin. destruct (Hset port Hin) as (Hread & _).
  vm_compute in Hread. now injection Hread.
Defined.

(** X11.  A cycle never logs in on its own initiative.  If the login is
    among the requests of a cycle, then [GetListeningPort], called at
    the start of the cycle, or [SetListeningPort], called after the
    GetPort site, has returned an error whose text contains
    "authentication expired". *)
Theorem login_only_after_expiry_text (remote : Remote)
    (decodePrefs : Decoder) (fs : FS) (c : QBittorrentClient)
    (portFile : string) (w w' : World) (exit : Exit) (tr : list Request) :
  syncPort remote decodePrefs fs c portFile w = (exit, w') ->
  sent w' = (sent w ++ tr)%list ->
  In (loginRequest c) tr ->
  (exists x err,
     getResult remote decodePrefs c (sent w) = (x, Some err) /\
     strings.Contains err "authentication expired" = true)
  \/
  (exists filePort gets currentPort err,
     readPortFile fs portFile = (filePort, None) /\
     GetSite remote decodePrefs c (sent w) gets (inr currentPort) /\
     setResult remote c filePort (sent w ++ gets) = Some err /\
     strings.Contains err "authentication expired" = true).
Proof.
  intros Hrun Htr Hin.
  destruct (syncPort_run _ _ _ _ _ _ _ _ Hrun) as (gets & sets & Hsent & Hc).
  rewrite Hsent in Htr. apply app_inv_head in Htr. subst tr.
  assert (Hg : getRequest c <> loginRequest c) by apply get_not_login.
  assert (Hs : forall p, setRequest c p <> loginRequest c)
    by (intros p; apply set_not_login).
  inversion Hc; subst; invert_sites; cbn [app In] in Hin;
    first
      [ solve [exfalso; intuition (eauto; congruence)]
      | solve [left; eauto]
      | solve [ right; do 4 eexists;
                (refine (conj _ (conj _ (conj _ _)));
                 [eassumption | | eassumption | eassumption]);
                econstructor; eassumption ] ].
Qed.

Lemma login_only_after_expiry_text_witness :
  (exists x err,
     getResult (expiringRemote 6881) exampleDecoder exampleClient
       (sent (after [])) = (x, Some err) /\
     strings.Contains err "authentication expired" = true)
  \/
  (exists filePort gets currentPort err,
     readPortFile (fsWith "30100") examplePortFile = (filePort, None) /\
     GetSite (expiringRemote 6881) exampleDecoder exampleClient
       (sent (after [])) gets (inr currentPort) /\
     setResult (expiringRemote 6881) exampleClient filePort
       (sent (after []) ++ gets) = Some err /\
     strings.Contains err "authentication expired" = true).
Proof.
  apply (login_only_after_expiry_text (expiringRemote 6881) exampleDecoder
           (fsWith "30100") exampleClient examplePortFile (after [])
           (snd (exampleCycle (expiringRemote 6881) (fsWith "30100")
                   (after [])))
           Completed
           [getRequest exampleClient; loginRequest exampleClient;
            getRequest exampleClient; setRequest exampleClient 30100]
           eq_refl eq_refl).
  right. left. reflexivity.
Defined.

(** ** A service whose only failure is an expired session *)

Section Healthy.

Variable remote : Remote.
Variable decodePrefs : Decoder.
Variable c : QBittorrentClient.
Variable portFile : string.

(** The login always succeeds; [GetListeningPort] and
    [SetListeningPort] fail with "authentication expired" only, and
    succeed when the login is the last request before them. *)
Hypothesis login_ok : forall h, loginResult remote c h = None.
Hypothesis get_expired :
  forall h x err,
    getResult remote decodePrefs c h = (x, Some err) ->
    strings.Contains err "authentication expired" = true.
Hypothesis get_fresh :
  forall h, snd (getResult remote decodePrefs c (h ++ [loginRequest c])) = None.
Hypothesis set_expired :
  forall h port err,
    setResult remote c port h = Some err ->
    strings.Contains err "authentication expired" = true.
Hypothesis set_fresh :
  forall h port, setResult remote c port (h ++ [loginRequest c]) = None.

Lemma healthy_get_fresh (h : list Request) (x : Z) (err : string) :
  getResult remote decodePrefs c (h ++ [getRequest c; loginRequest c])
    <> (x, Some err).
Proof.
  intros H. pose proof (get_fresh (h ++ [getRequest c])) as F.
  rewrite <- app_assoc in F. cbn [app] in F. rewrite H in F. discriminate F.
Qed.

Lemma healthy_set_fresh (h g : list Request) (port : Z) (err : string) :
  setResult remote c port ((h ++ g) ++ [setRequest c port; loginRequest c])
    <> Some err.
Proof.
  intros H. pose proof (set_fresh ((h ++ g) ++ [setRequest c port]) port) as F.
  rewrite <- (app_assoc (h ++ g)) in F. cbn [app] in F.
  rewrite H in F. discriminate F.
Qed.

Lemma healthy_cycle (fs : FS) (w : World) (filePort : Z) :
  readPortFile fs portFile = (filePort, None) ->
  lastPort (snd (syncPort remote decodePrefs fs c portFile w)) = filePort.
Proof.
  intros Hread.
  destruct (syncPort remote decodePrefs fs c portFile w) as [exit w'] eqn:Hrun.
  destruct (syncPort_run _ _ _ _ _ _ _ _ Hrun) as (gets & sets & _ & Hc).
  cbn [snd].
  inversion Hc; subst;
    repeat match goal with
      | H : readPortFile fs portFile = _ |- _ =>
          rewrite Hread in H; first [discriminate H | injection H as ?]; subst
      end;
    try congruence;
    exfalso; invert_sites;
    repeat match goal with
      | H : getResult _ _ _ _ = (_, Some _) |- _ =>
          first [ exact (healthy_get_fresh _ _ _ H)
                | apply get_expired in H ]
      | H : setResult _ _ _ _ = Some _ |- _ =>
          first [ exact (healthy_set_fresh _ _ _ _ H)
                | apply set_expired in H ]
      | H : loginResult _ _ _ = Some _ |- _ =>
          rewrite login_ok in H; discriminate H
      end;
    congruence.
Qed.

Lemma settled_loop (ticks : list FS) (port : Z) :
  Forall (fun fs => readPortFile fs portFile = (port, None)) ticks ->
  forall w,
    lastPort w = port ->
    lastPort (snd (syncLoop remote decodePrefs c portFile ticks w)) = port /\
    sent (snd (syncLoop remote decodePrefs c portFile ticks w)) = sent w.
Proof.
  induction 1 as [|fs ticks Hfs _ IH]; intros w Hw; [cbn; auto|].
  cbn [syncLoop].
  rewrite <- Hw in Hfs.
  destruct (unchanged_cycle remote decodePrefs fs c portFile w Hfs)
    as (_ & Hl & Hs).
  destruct (syncPort remote decodePrefs fs c portFile w) as [exit w1].
  cbn [snd] in Hl, Hs.
  destruct (IH w1 ltac:(congruence)) as [Hl' Hs'].
  split; congruence.
Qed.

(** X12.  Against a service whose login always succeeds, and whose
    requests for and to set the preferences fail only with
    "authentication expired" and succeed right after a login, the loop
    settles.  While the port file holds the same valid port at every
    tick, the first cycle ends with [lastPort] equal to that port,
    whatever the state of the session, and sends at most six requests;
    the cycles after it send nothing.  So the whole loop, however many
    ticks it runs, sends at most six requests. *)
Theorem loop_settles (now : FS) (ticks : list FS) (port : Z) (w : World) :
  Forall (fun fs => readPortFile fs portFile = (port, None)) (now :: ticks) ->
  let w1 := snd (syncPort remote decodePrefs now c portFile w) in
  let w' := snd (syncLoop remote decodePrefs c portFile (now :: ticks) w) in
  lastPort w1 = port /\
  lastPort w' = port /\
  sent w' = sent w1 /\
  exists tr,
    sent w' = (sent w ++ tr)%list /\
    (List.length tr <= 6)%nat /\ (logins c tr <= 2)%nat.
Proof.
  intros Hall w1 w'. inversion Hall as [|fs l Hnow Hticks]; subst.
  assert (H1 : lastPort w1 = port) by (apply healthy_cycle; exact Hnow).
  destruct (settled_loop ticks port Hticks w1 H1) as [Hl Hs].
  assert (Hw' : w' = snd (syncLoop remote decodePrefs c portFile ticks w1)).
  { unfold w', w1. cbn [syncLoop].
    destruct (syncPort remote decodePrefs now c portFile w). reflexivity. }
  rewrite Hw'. repeat split; try assumption.
  rewrite Hs. apply syncPort_traffic.
Qed.

End Healthy.

Lemma expiringRemote_login (port : Z) (h : list Request) :
  loginResult (expiringRemote port) exampleClient h = None.
Proof.
  rewrite loginResult_eq. unfold expiringRemote.
  destruct (existsb _ h); reflexivity.
Qed.

Lemma expiringRemote_logged_in (h : list Request) :
  existsb (fun r => if Request_eq_dec r (loginRequest exampleClient)
                    then true else false)
    (h ++ [loginRequest exampleClient]) = true.
Proof.
  rewrite existsb_app. cbn [existsb].
  destruct (Request_eq_dec _ _) as [_|N]; [|now contradiction N].
  now rewrite orb_true_r.
Qed.

Lemma loop_settles_witness :
  let w' := snd (syncLoop (expiringRemote 6881) exampleDecoder exampleClient
                   examplePortFile
                   [fsWith "30100"; fsWith ("30100" ++ newline)] (after []))
  in
  lastPort w' = 30100 /\
  exists tr,
    sent w' = (sent (after []) ++ tr)%list /\ (List.length tr <= 6)%nat.
Proof.
  destruct (loop_settles (expiringRemote 6881) exampleDecoder exampleClient
              examplePortFile)
    with (now := fsWith "30100") (ticks := [fsWith ("30100" ++ newline)])
         (port := 30100) (w := after [])
    as (_ & Hl & _ & tr & Hs & Hn & _).
  - apply expiringRemote_login.
  - intros h x err. rewrite getResult_eq. unfold expiringRemote.
    destruct (existsb _ h); cbn; intros H; [discriminate H|].
    injection H as _ <-. reflexivity.
  - intros h. rewrite getResult_eq. unfold expiringRemote.
    rewrite expiringRemote_logged_in. reflexivity.
  - intros h port err. rewrite setResult_eq. unfold expiringRemote.
    destruct (existsb _ h); cbn; intros H; [discriminate H|].
    injection H as <-. reflexivity.
  - intros h port. rewrite setResult_eq. unfold expiringRemote.
    rewrite expiringRemote_logged_in. reflexivity.
  - repeat constructor.
  - cbv zeta. split; [exact Hl | exists tr; split; assumption].
Defined.

(** ** The port file, case by case *)

Lemma TrimSpace_padded_decimal (ws1 s ws2 : string) (v : Z) :
  allAsciiSpace ws1 = true ->
  allAsciiSpace ws2 = true ->
  decimalInteger s = Some v ->
  strings.TrimSpace (ws1 ++ s ++ ws2) = s.
Proof.
  intros Hws1 Hws2 Hv.
  assert (Hne : (1 <= len s)%nat)
    by (destruct s; [discriminate | simpl; lia]).
  assert (Hns : forall k, (k < len s)%nat ->
                at_ s k < utf8.RuneSelf /\ strings.asciiSpace (at_ s k) = false).
  { intros k Hk. unfold utf8.RuneSelf, strings.asciiSpace.
    destruct (decimalInteger_bytes s v k Hv Hk) as [Hb | [-> [-> | ->]]];
      [|split; [lia | reflexivity] ..].
    split; [lia|].
    repeat match goal with
      | |- context [?b =? ?n] => destruct (Z.eqb_spec b n); [lia|]
      end.
    reflexivity. }
  destruct (Hns 0%nat ltac:(lia)) as [H1 H2].
  destruct (Hns (len s - 1)%nat ltac:(lia)) as [H3 H4].
  now apply TrimSpace_ascii_padding.
Qed.

(** X13.  [readPortFile], case by case, in the words of a decimal
    integer.  A file that cannot be read gives "failed to read port
    file: " and the error.  Otherwise the content is trimmed, and: text
    that is not a decimal integer, or is one that does not fit 64 bits,
    gives "invalid port number: " and the trimmed text; an integer
    outside [1, 65535] gives "port number out of range: " and the
    integer in decimal; an integer in the range is returned.  Every
    error comes with the port 0. *)
Theorem readPortFile_cases (fs : FS) (filename : string) :
  readPortFile fs filename =
    match snd (fs filename) with
    | Some err => (0, Some ("failed to read port file: " ++ err))
    | None =>
        let portStr := strings.TrimSpace (fst (fs filename)) in
        match decimalInteger portStr with
        | None => (0, Some ("invalid port number: " ++ portStr))
        | Some v =>
            if (- 2 ^ 63 <=? v) && (v <? 2 ^ 63)
            then if (1 <=? v) && (v <=? 65535)
                 then (v, None)
                 else (0, Some ("port number out of range: " ++ fmt.d v))
            else (0, Some ("invalid port number: " ++ portStr))
        end
    end.
Proof.
  unfold readPortFile.
  destruct (fs filename) as [data [err|]]; cbn [fst snd]; [reflexivity|].
  cbv zeta.
  pose proof (Atoi_spec (strings.TrimSpace data)) as HA.
  destruct (decimalInteger (strings.TrimSpace data)) as [v|].
  - destruct ((- 2 ^ 63 <=? v) && (v <? 2 ^ 63)).
    + rewrite HA.
      destruct ((v <? 1) || (65535 <? v)) eqn:Hr;
        destruct ((1 <=? v) && (v <=? 65535)) eqn:Hv;
        zb Hr; zb Hv; solve [reflexivity | lia].
    + destruct HA as [u ->]. reflexivity.
  - destruct HA as (u & e & ->). reflexivity.
Qed.

(** X14.  What the program prints with [%d] it reads back.  A file that
    holds a 64-bit integer as [%d] prints it, between any ASCII white
    space, is read as that integer: [readPortFile] returns it when it is
    in [1, 65535], and otherwise reports it, printed the same way, as
    out of range. *)
Theorem readPortFile_reads_printed (fs : FS) (filename ws1 ws2 : string)
    (z : Z) :
  fs filename = (ws1 ++ fmt.d z ++ ws2, None) ->
  allAsciiSpace ws1 = true ->
  allAsciiSpace ws2 = true ->
  - 2 ^ 63 <= z < 2 ^ 63 ->
  readPortFile fs filename =
    if (1 <=? z) && (z <=? 65535)
    then (z, None)
    else (0, Some ("port number out of range: " ++ fmt.d z)).
Proof.
  intros Hfs Hws1 Hws2 Hz.
  unfold readPortFile. rewrite Hfs.
  rewrite (TrimSpace_padded_decimal ws1 (fmt.d z) ws2 z Hws1 Hws2
             (decimalInteger_fmt_d z)).
  rewrite (Atoi_fmt_d z Hz).
  destruct ((z <? 1) || (65535 <? z)) eqn:Hr;
    destruct ((1 <=? z) && (z <=? 65535)) eqn:Hv;
    zb Hr; zb Hv; solve [reflexivity | lia].
Qed.

Lemma readPortFile_reads_printed_witness :
  readPortFile (fsWith (" " ++ fmt.d (-7) ++ newline)) examplePortFile =
    (0, Some "port number out of range: -7").
Proof.
  apply (readPortFile_reads_printed
           (fsWith (" " ++ fmt.d (-7) ++ newline)) examplePortFile
           " " newline (-7) eq_refl eq_refl eq_refl).
  lia.
Defined.

(** ** The three methods of the client *)

(** X15.  The body of the login response is trimmed before it is
    compared.  When the service answers the login with "Ok." between any
    ASCII white space, [Login] succeeds if the status is 200, and
    otherwise fails with an error that gives the status and the trimmed
    body. *)
Theorem Login_trims_body (remote : Remote) (c : QBittorrentClient)
    (w : World) (status : Z) (ws1 ws2 : string) :
  remote (sent w) (loginRequest c) = Response status (ws1 ++ "Ok." ++ ws2) ->
  allAsciiSpace ws1 = true ->
  allAsciiSpace ws2 = true ->
  fst (Login remote c w) =
    if status =? 200 then None
    else Some ("login failed: status=" ++ fmt.d status ++ ", body=Ok.").
Proof.
  intros Hr Hws1 Hws2.
  rewrite Login_eq. cbn [fst]. rewrite loginResult_eq, Hr.
  rewrite (TrimSpace_ascii_padding ws1 "Ok." ws2 Hws1 Hws2)
    by (vm_compute; first [lia | reflexivity]).
  unfold StatusOK. destruct (status =? 200); reflexivity.
Qed.

Lemma Login_trims_body_witness :
  fst (Login (expiringRemote 6881) exampleClient (after [])) = None.
Proof.
  apply (Login_trims_body (expiringRemote 6881) exampleClient (after [])
           200 "" newline eq_refl eq_refl eq_refl).
Defined.

(** X16.  Each method of the client sends exactly one request, whatever
    comes back, and none of them writes [lastPort].  [Login] logs one
    line when it succeeds and none when it fails; [GetListeningPort] and
    [SetListeningPort] log nothing.  [GetListeningPort] returns the port
    0 with every error. *)
Theorem methods_send_one_request (remote : Remote) (decodePrefs : Decoder)
    (c : QBittorrentClient) (port : Z) (w : World) :
  let login := Login remote c w in
  let get := GetListeningPort remote decodePrefs c w in
  let set := SetListeningPort remote c port w in
  (sent (snd login) = (sent w ++ [loginRequest c])%list /\
   lastPort (snd login) = lastPort w /\
   logged (snd login) =
     match fst login with
     | None =>
         (logged w ++ ["Successfully authenticated with qBittorrent"])%list
     | Some _ => logged w
     end)
  /\
  (sent (snd get) = (sent w ++ [getRequest c])%list /\
   lastPort (snd get) = lastPort w /\
   logged (snd get) = logged w /\
   (snd (fst get) <> None -> fst (fst get) = 0))
  /\
  (sent (snd set) = (sent w ++ [setRequest c port])%list /\
   lastPort (snd set) = lastPort w /\
   logged (snd set) = logged w).
Proof.
  cbv zeta.
  rewrite Login_eq, GetListeningPort_eq, SetListeningPort_eq.
  cbn [fst snd].
  split; [|split].
  - destruct (loginResult remote c (sent w)); cbn; auto.
  - cbn. repeat split.
    rewrite getResult_eq.
    destruct (remote (sent w) (getRequest c)) as [msg|status body_];
      [reflexivity|].
    destruct (status =? StatusForbidden); [reflexivity|].
    destruct (negb (status =? StatusOK)); [reflexivity|].
    destruct (decodePrefs body_) as [msg|[p|]]; cbn; congruence.
  - cbn. auto.
Qed.
